(** * Lobster task provider and dashboard: a shallow embedding

    The development follows [lobster/cmssw/dash.py] (telemetry) and
    [lobster/core/source.py] (the task provider).  Dictionaries are finite
    maps, Python exceptions are an explicit result type, and every call that
    leaves the process (store, file system, telemetry, logger) is recorded in
    a trace. *)

From Stdlib Require Import ZArith QArith Qcanon.
From stdpp Require Import gmap strings list fin_maps pretty.

Local Open Scope Z_scope.
Local Open Scope string_scope.
Local Open Scope list_scope.

(** ** Python values shared by both files *)

Module py.

(** The exceptions the two files raise or handle by name. *)
Inductive exn :=
| KeyError (key : string)
| IndexError
| AttributeError (attr : string)
| IOError
| OSError
| ValueError (msg : string)
| RuntimeError (msg : string).

Inductive result (A : Type) :=
| Ok (a : A)
| Raise (e : exn).
Arguments Ok {A} a.
Arguments Raise {A} e.

Definition is_ok {A} (r : result A) : bool :=
  match r with Ok _ => true | Raise _ => false end.

(** A task identifier as it reaches telemetry: an integer or its text. *)
Inductive ident :=
| IntId (z : Z)
| StrId (s : string).

(** [str(x)] and the [{0}] conversion of [str.format]. *)
Definition str (i : ident) : string :=
  match i with
  | IntId z => pretty z
  | StrId s => s
  end.

(** [str(e)] for an exception, from what the embedding keeps of it. *)
Definition exn_str (e : exn) : string :=
  match e with
  | KeyError key => key
  | AttributeError attr => attr
  | ValueError msg => msg
  | RuntimeError msg => msg
  | IndexError | IOError | OSError => EmptyString
  end.

(** Truth value of a string: the empty string is false. *)
Definition truthy (s : string) : bool :=
  match s with EmptyString => false | String _ _ => true end.

End py.
Import py.

(** ** lobster/cmssw/dash.py *)

Module dash.

Definition UNKNOWN := "Unknown".
Definition SUBMITTED := "Pending".
Definition DONE := "Done".
Definition RETRIEVED := "Retrieved".
Definition ABORTED := "Aborted".
Definition CANCELLED := "Killed".
Definition RUNNING := "Running".
Definition WAITING_RETRIEVAL := "Waiting Retrieval".

(** The task states of the dispatch framework.  Its module is not part of
    the repository, so the constants are an enumeration; [WQ_OTHER] stands
    for any code outside the table below. *)
Inductive wq_state :=
| WORK_QUEUE_TASK_UNKNOWN
| WORK_QUEUE_TASK_READY
| WORK_QUEUE_TASK_RUNNING
| WORK_QUEUE_TASK_WAITING_RETRIEVAL
| WORK_QUEUE_TASK_RETRIEVED
| WORK_QUEUE_TASK_DONE
| WORK_QUEUE_TASK_CANCELED
| WQ_OTHER (code : Z).

(** The text of a state that is not in the table, as [KeyError] carries it. *)
Definition state_str (k : wq_state) : string :=
  match k with
  | WQ_OTHER code => pretty code
  | _ => EmptyString
  end.

(** [status_map[k]]: [None] is the [KeyError] of a missing key. *)
Definition status_map (k : wq_state) : option string :=
  match k with
  | WORK_QUEUE_TASK_UNKNOWN => Some UNKNOWN
  | WORK_QUEUE_TASK_READY => Some SUBMITTED
  | WORK_QUEUE_TASK_RUNNING => Some RUNNING
  | WORK_QUEUE_TASK_WAITING_RETRIEVAL => Some WAITING_RETRIEVAL
  | WORK_QUEUE_TASK_RETRIEVED => Some RETRIEVED
  | WORK_QUEUE_TASK_DONE => Some DONE
  | WORK_QUEUE_TASK_CANCELED => Some ABORTED
  | WQ_OTHER _ => None
  end.

(** The queue as [update_tasks] sees it: the keys of [_task_table] in
    iteration order (or the exception that reading them raises) and
    [task_state]. *)
Record Queue := {
  task_table_keys : result (list Z);
  task_state : Z -> wq_state
}.

(** One dictionary handed to [apMonSend]. *)
Abbreviation message := (gmap string string).

(** The dashboard.  Clock readings and the interval are exact rationals: the
    code adds and compares floating-point seconds, whose rounding is not
    modelled. *)
Record Dashboard := {
  interval : Qc;
  previous : Qc;                 (* __previous *)
  states : gmap Z string;        (* __states *)
  workflowid : string;           (* _workflowid *)
  ce : string;                   (* _ce *)
  sent : list message;           (* what apMonSend has received, in order *)
  status_calls : list (list (ident * string))
                                 (* the arguments of update_task_status, in order *)
}.

Definition set_previous (t : Qc) (d : Dashboard) : Dashboard :=
  {| interval := interval d; previous := t; states := states d;
     workflowid := workflowid d; ce := ce d; sent := sent d;
     status_calls := status_calls d |}.

Definition set_states (m : gmap Z string) (d : Dashboard) : Dashboard :=
  {| interval := interval d; previous := previous d; states := m;
     workflowid := workflowid d; ce := ce d; sent := sent d;
     status_calls := status_calls d |}.

Definition log_status_call (data : list (ident * string)) (d : Dashboard) : Dashboard :=
  {| interval := interval d; previous := previous d; states := states d;
     workflowid := workflowid d; ce := ce d; sent := sent d;
     status_calls := status_calls d ++ [data] |}.

Definition set_sent (l : list message) (d : Dashboard) : Dashboard :=
  {| interval := interval d; previous := previous d; states := states d;
     workflowid := workflowid d; ce := ce d; sent := l;
     status_calls := status_calls d |}.

(** [__init__]: the part of the constructor that sets the fields above. *)
Definition init (interval0 : Qc) (wfid site : string) : Dashboard :=
  {| interval := interval0; previous := 0%Qc; states := ∅;
     workflowid := wfid; ce := site; sent := []; status_calls := [] |}.

Section Dashboard.

(** [sha1(s).hexdigest()[-16:]], and the text of the clock in a given
    [strftime] format when a message is stamped. *)
Variable sha1_tail : string -> string.
Variable stamp : string -> string.

Definition generate_ids (d : Dashboard) (taskid : ident) : string * string :=
  let seid := "https://" +:+ ce d +:+ "/" +:+ sha1_tail (workflowid d) in
  let monitorid := str taskid +:+ "_" +:+ seid +:+ "/" +:+ str taskid in
  let syncid :=
    "https://" +:+ ce d +:+ "//" +:+ workflowid d +:+ "//12345." +:+ str taskid in
  (monitorid, syncid).

(** [send(kind, data)] for a list [data]: every dictionary gets its type and
    time stamp and goes to [apMonSend]. *)
Definition send (kind : string) (data : list message) (d : Dashboard) : Dashboard :=
  set_sent
    (sent d ++ map (fun params => <["MessageTS" := stamp "%Y-%m-%d %H:%M:%S"]> (<["MessageType" := kind]> params)) data)
    d.

Definition status_message (d : Dashboard) (u : ident * string) : message :=
  let '(monitorid, syncid) := generate_ids d u.1 in
  list_to_map
    [ ("taskId", workflowid d); ("jobId", monitorid); ("sid", syncid);
      ("StatusValueReason", EmptyString); ("StatusValue", u.2);
      ("StatusEnterTime", stamp "%F_%T"); ("StatusDestination", "Unknown");
      ("RBname", "condor") ].

Definition update_task_status (data : list (ident * string)) (d : Dashboard) : Dashboard :=
  send "JobStatus" (map (status_message d) data) (log_status_call data d).

(** The loop of [update_tasks] over the queue's ids.  It threads the state
    map and the list [data]; an unmapped queue state raises [KeyError]. *)
Fixpoint collect (q : Queue) (exclude : list string) (ids : list Z)
    (st : gmap Z string) (data : list (ident * string))
  : gmap Z string * result (list (ident * string)) :=
  match ids with
  | [] => (st, Ok data)
  | id_ :: rest =>
      match status_map (task_state q id_) with
      | None => (st, Raise (KeyError (state_str (task_state q id_))))
      | Some status =>
          if bool_decide (status ∈ exclude) then collect q exclude rest st data
          else if negb (from_option truthy false (st !! id_))
                  || negb (bool_decide (default status (st !! id_) = status))
          then collect q exclude rest st data
          else collect q exclude rest (<[id_ := status]> st) (data ++ [(IntId id_, status)])
      end
  end.

(** [update_tasks(queue, exclude)].  [now] is the clock read by the
    rate-limit test and [now'] the later reading stored in [__previous]. *)
Definition update_tasks (now now' : Qc) (q : Queue) (exclude : list string)
    (d : Dashboard) : Dashboard * result unit :=
  let report := bool_decide (previous d + interval d < now)%Qc in
  if negb report then (d, Ok tt)
  else
    let d := set_previous now' d in
    match task_table_keys q with
    | Raise e => (d, Raise e)
    | Ok ids =>
        match collect q exclude ids (states d) [] with
        | (st, Raise e) => (set_states st d, Raise e)
        | (st, Ok data) => (update_task_status data (set_states st d), Ok tt)
        end
    end.

End Dashboard.

End dash.

(** ** lobster/core/source.py *)

Module source.

(** *** ReleaseSummary *)

(** The result codes of the dispatch framework with their texts, in the
    order and with the values the source lists them. *)
Definition flags : list (Z * string) :=
  [ (1, "missing input"); (2, "missing output"); (4, "no stdout");
    (8, "signal received"); (16, "exhausted resources"); (32, "time out");
    (64, "unclassified error"); (128, "unrelated error");
    (256, "exceed # retries"); (512, "exceeded runtime") ].

Record ReleaseSummary := {
  rs_exe : gmap Z (list string);         (* __exe *)
  rs_wq : gmap Z (list string);          (* __wq *)
  rs_taskdirs : gmap string string;      (* __taskdirs *)
  rs_monitors : list string              (* __monitors *)
}.

Definition summary_init : ReleaseSummary :=
  {| rs_exe := ∅; rs_wq := ∅; rs_taskdirs := ∅; rs_monitors := [] |}.

Definition summary_exe (status : Z) (taskid : string) (s : ReleaseSummary) : ReleaseSummary :=
  {| rs_exe := <[status := default [] (rs_exe s !! status) ++ [taskid]]> (rs_exe s);
     rs_wq := rs_wq s; rs_taskdirs := rs_taskdirs s; rs_monitors := rs_monitors s |}.

(** [wq(status, taskid)]: the task is filed under the flag equal to
    [status], if there is one. *)
Definition summary_wq (status : Z) (taskid : string) (s : ReleaseSummary) : ReleaseSummary :=
  {| rs_exe := rs_exe s;
     rs_wq := if bool_decide (status ∈ map fst flags)
              then <[status := default [] (rs_wq s !! status) ++ [taskid]]> (rs_wq s)
              else rs_wq s;
     rs_taskdirs := rs_taskdirs s; rs_monitors := rs_monitors s |}.

Definition summary_dir (taskid taskdir : string) (s : ReleaseSummary) : ReleaseSummary :=
  {| rs_exe := rs_exe s; rs_wq := rs_wq s;
     rs_taskdirs := <[taskid := taskdir]> (rs_taskdirs s);
     rs_monitors := rs_monitors s |}.

Definition summary_monitor (taskid : string) (s : ReleaseSummary) : ReleaseSummary :=
  {| rs_exe := rs_exe s; rs_wq := rs_wq s; rs_taskdirs := rs_taskdirs s;
     rs_monitors := rs_monitors s ++ [taskid] |}.

(** *** Data of the task provider *)

(** One entry of a merge task's [lumis]: the constituent task and three
    fields the provider does not look at. *)
Abbreviation lumi := (Z * Z * Z * Z)%type.

(** The tuples [(id, label, files, lumis, unique_arg, merge)] of the store. *)
Record TaskInfo := {
  ti_id : Z;
  ti_label : string;
  ti_files : list (Z * string);
  ti_lumis : list lumi;
  ti_unique_arg : option string;
  ti_merge : bool
}.

(** The attributes of a workflow that [obtain] and [release] read. *)
Record Workflow := {
  label : string;
  workdir : string;
  merge_size : Z;
  dependents : list string;              (* the labels of the dependents *)
  cleanup_input : bool;
  category_name : string;
  parent : option string;
  unique_arguments : list (option string);
  get_outputs : Z -> list (string * string)
}.

(** Modelled from the spec: the task handler classes are not part of the
    files at hand.  A handler is the record of what [wflow.handler(id, files,
    lumis, jdir, merge=merge)] was called with; it is a merge handler exactly
    when it was built with [merge] set.  What it exposes after construction
    ([outputs], [input_files], [output_info], [unit_source]) and its
    [process] method are operations of the environment below. *)
Record Handler := {
  h_id : Z;
  h_dataset : string;
  h_files : list (Z * string);
  h_lumis : list lumi;
  h_taskdir : string;
  h_merge : bool
}.

(** A completed task as the dispatch framework returns it. *)
Record Task := {
  tag : Z;
  return_status : Z;
  result_code : Z
}.

(** What is dispatched: [(category, cmd, id, inputs, outputs, env, jdir)]. *)
Record Manifest := {
  m_inputs : list (string * string * bool);
  m_outputs : list (string * string);
  m_env : gmap string string
}.

Record Descriptor := {
  d_category : string;
  d_cmd : string;
  d_id : Z;
  d_manifest : Manifest;
  d_jdir : string
}.

Abbreviation Transfers := (gmap string (gmap string (gmap string Z))).
Abbreviation FileUpdate := (list (Z * Z * string)).

Inductive store_call :=
| WorkLeft (label : string)
| PopUnmergedTasks (label : string) (merge_size max_batches : Z)
| PopUnits (label : string) (ntasks : Z) (taper : Qc)
| UpdateMissing (ids : list Z)
| UpdateUnits (keys : list (string * string))
| FinishedFiles (labels : list string)
| RegisterFiles (files : list string) (label : string)
| UpdateTransfers
| RunningTasks
| UnfinishedUnits
| Merged
| WorkflowStatus.

Inductive dash_call :=
| UpdateTaskStatus (data : list (ident * string))
| RegisterTasks (ids : list Z)
| UpdateTasks (exclude : list string)
| Free.

Inductive log_entry :=
| LogText (level : string) (msg : string)
| LogException (e : exn)
| LogSummary (s : ReleaseSummary).

(** Everything a call does outside the provider's own fields, in order. *)
Inductive event :=
| EStore (c : store_call)
| EDash (c : dash_call)
| EMove (workdir : string) (id : Z) (dest : string)
| ERemove (paths : list string)
| EWriteParameters (jdir : string) (monitorid syncid : option string)
| ELog (l : log_entry)
| EElk (what : string).

(** [", ".join(map(str, ids))] *)
Definition join_ids (ids : list Z) : string :=
  String.concat ", " (map (fun i : Z => pretty i) ids).

(** [os.path.join]: a component that starts with the separator replaces what
    came before it, and no separator is put after an empty path or a path
    that ends with one. *)
Definition sep : Ascii.ascii := Ascii.ascii_of_nat 47.

Definition starts_with_sep (s : string) : bool :=
  match s with
  | String c _ => bool_decide (c = sep)
  | EmptyString => false
  end.

Fixpoint ends_with_sep (s : string) : bool :=
  match s with
  | EmptyString => false
  | String c EmptyString => bool_decide (c = sep)
  | String _ rest => ends_with_sep rest
  end.

Definition join2 (path b : string) : string :=
  if starts_with_sep b then b
  else if negb (truthy path) || ends_with_sep path then path +:+ b
  else path +:+ "/" +:+ b.

Definition path_join (parts : list string) : string :=
  match parts with
  | [] => EmptyString
  | a :: p => foldl join2 a p
  end.

(** *** The collaborators *)

(** The unit store.  Its module is not part of the files at hand: the
    provider is written against its operations, which either answer a query
    or return the store after the call. *)
Class UnitStore (TaskUpdate UnitUpdate OutputInfo Store : Type) := {
  work_left : Store -> string -> Z;
  pop_unmerged_tasks : Store -> string -> Z -> Z -> Store * list TaskInfo;
  pop_units : Store -> string -> Z -> Qc -> Store * list TaskInfo;
  update_units :
    Store -> gmap (string * string) (list (TaskUpdate * FileUpdate * UnitUpdate)) -> Store;
  update_missing : Store -> list Z -> Store;
  finished_files : Store -> gmap string (gset string) -> list string;
  register_files : Store -> gmap string OutputInfo -> string -> list (option string) -> Store;
  update_transfers : Store -> Transfers -> Store;
  running_tasks : Store -> list Z;
  unfinished_units : Store -> Z;
  merged : Store -> bool
}.

(** Everything else the provider calls: the handlers' methods, the
    allocation algorithm, the file system and the helpers of [util]. *)
Class Environment (TaskUpdate UnitUpdate OutputInfo : Type) := {
  process :
    Handler -> Task -> ReleaseSummary -> Transfers ->
    bool * TaskUpdate * FileUpdate * UnitUpdate * ReleaseSummary * Transfers;
  outputs : Handler -> list (string * string);
  output_info : Handler -> OutputInfo;
  input_files : Handler -> list string;
  unit_source : Handler -> string;
  (* wflow.adjust, storage.preprocess and handler.adjust on the manifests *)
  adjust : Workflow -> Handler -> list string -> Manifest -> Manifest;
  algo_run : Z -> gmap string Z -> list (Workflow * Z) -> list (string * Z * Qc);
  isfile : string -> bool;
  fs_remove : list string -> result unit;
  util_move : string -> Z -> string -> string;
  util_taskdir : string -> Z -> string;
  util_id2dir : Z -> string;
  elk_index_summary : result unit;
  sha1_tail : string -> string;
  stamp : string -> string
}.

Record Config := {
  workflows : list Workflow;
  cfg_workdir : string;                  (* self.workdir *)
  cfg_inputs : list (string * string * bool);   (* self._inputs *)
  elk : bool;                            (* whether config.elk is set *)
  cvmfs_proxy : string;
  frontier_proxy : string;
  osg_version : string
}.

(** [config.advanced.dashboard]: the silent base class or the dashboard. *)
Inductive Telemetry :=
| Monitor
| Dash (d : dash.Dashboard).

Section Provider.

Context {TaskUpdate UnitUpdate OutputInfo Store : Type}.
Context {US : UnitStore TaskUpdate UnitUpdate OutputInfo Store}.
Context {Env : Environment TaskUpdate UnitUpdate OutputInfo}.

Record TaskProvider := {
  taskhandlers : gmap Z Handler;         (* __taskhandlers *)
  store : Store;                         (* __store *)
  dashboard : Telemetry
}.

Definition set_handlers (m : gmap Z Handler) (tp : TaskProvider) : TaskProvider :=
  {| taskhandlers := m; store := store tp; dashboard := dashboard tp |}.
Definition set_store (s : Store) (tp : TaskProvider) : TaskProvider :=
  {| taskhandlers := taskhandlers tp; store := s; dashboard := dashboard tp |}.
Definition set_dashboard (t : Telemetry) (tp : TaskProvider) : TaskProvider :=
  {| taskhandlers := taskhandlers tp; store := store tp; dashboard := t |}.

(** *** The monad of the provider's methods

    A method takes the provider and returns it after the call, the events
    of the call and either a value or the exception that ended it. *)
Definition M (A : Type) : Type := TaskProvider -> TaskProvider * list event * result A.

Definition ret {A} (a : A) : M A := fun tp => (tp, [], Ok a).
Definition raise {A} (e : exn) : M A := fun tp => (tp, [], Raise e).
Definition bind {A B} (m : M A) (k : A -> M B) : M B :=
  fun tp =>
    match m tp with
    | (tp1, ev1, Raise e) => (tp1, ev1, Raise e)
    | (tp1, ev1, Ok a) =>
        match k a tp1 with
        | (tp2, ev2, r) => (tp2, ev1 ++ ev2, r)
        end
    end.
Definition emit (e : event) : M unit := fun tp => (tp, [e], Ok tt).
Definition get : M TaskProvider := fun tp => (tp, [], Ok tp).
Definition modify (f : TaskProvider -> TaskProvider) : M unit := fun tp => (f tp, [], Ok tt).
Definition when (b : bool) (m : M unit) : M unit := if b then m else ret tt.

Notation "x <- c1 ;; c2" := (bind c1 (fun x => c2))
  (at level 100, c1 at next level, right associativity).
Notation "c1 ;; c2" := (bind c1 (fun _ => c2))
  (at level 100, right associativity).

(** A [for] loop that threads an accumulator. *)
Fixpoint foldM {A B} (f : B -> A -> M A) (l : list B) (a : A) : M A :=
  match l with
  | [] => ret a
  | b :: l' => a' <- f b a ;; foldM f l' a'
  end.

Fixpoint mapM {A B} (f : A -> M B) (l : list A) : M (list B) :=
  match l with
  | [] => ret []
  | a :: l' => b <- f a ;; bs <- mapM f l' ;; ret (b :: bs)
  end.

Definition log (level msg : string) : M unit := emit (ELog (LogText level msg)).

(** [getattr(self.config.workflows, label)] *)
Definition find_workflow (cfg : Config) (l : string) : option Workflow :=
  find (fun w => bool_decide (label w = l)) (workflows cfg).

Definition getattr_workflow (cfg : Config) (l : string) : M Workflow :=
  match find_workflow cfg l with
  | Some w => ret w
  | None => raise (AttributeError l)
  end.

(** *** Telemetry calls *)

Definition tel_update_task_status (data : list (ident * string)) (t : Telemetry) : Telemetry :=
  match t with
  | Monitor => Monitor
  | Dash d => Dash (dash.update_task_status sha1_tail stamp data d)
  end.

Definition tel_update_tasks (now now' : Qc) (q : dash.Queue) (exclude : list string)
    (t : Telemetry) : Telemetry * result unit :=
  match t with
  | Monitor => (Monitor, Ok tt)
  | Dash d =>
      let '(d', r) := dash.update_tasks sha1_tail stamp now now' q exclude d in (Dash d', r)
  end.

(** The pair [register_tasks] yields for one id. *)
Definition tel_register (t : Telemetry) (id : Z) : option string * option string :=
  match t with
  | Monitor => (None, None)
  | Dash d => let '(m, s) := dash.generate_ids sha1_tail d (IntId id) in (Some m, Some s)
  end.

Definition update_task_status (data : list (ident * string)) : M unit :=
  emit (EDash (UpdateTaskStatus data)) ;;
  modify (fun tp => set_dashboard (tel_update_task_status data (dashboard tp)) tp).

Definition try_catch {A} (m : M A) (h : exn -> M A) : M A :=
  fun tp =>
    match m tp with
    | (tp1, ev1, Raise e) =>
        match h e tp1 with
        | (tp2, ev2, r) => (tp2, ev1 ++ ev2, r)
        end
    | done_ => done_
    end.

(** *** release *)

(** The local variables of [release] that the loop over the tasks fills. *)
Record Locals := {
  l_fail_cleanup : list string;
  l_merge_cleanup : list string;
  l_update : gmap (string * string) (list (TaskUpdate * FileUpdate * UnitUpdate));
  l_propagate : gmap string (gmap string OutputInfo);
  l_input_files : gmap string (gset string);
  l_summary : ReleaseSummary;
  l_transfers : Transfers
}.

Definition locals_init : Locals :=
  {| l_fail_cleanup := []; l_merge_cleanup := []; l_update := ∅; l_propagate := ∅;
     l_input_files := ∅; l_summary := summary_init; l_transfers := ∅ |}.

Definition set_fail_cleanup (x : list string) (L : Locals) : Locals :=
  {| l_fail_cleanup := x; l_merge_cleanup := l_merge_cleanup L; l_update := l_update L;
     l_propagate := l_propagate L; l_input_files := l_input_files L;
     l_summary := l_summary L; l_transfers := l_transfers L |}.
Definition set_merge_cleanup (x : list string) (L : Locals) : Locals :=
  {| l_fail_cleanup := l_fail_cleanup L; l_merge_cleanup := x; l_update := l_update L;
     l_propagate := l_propagate L; l_input_files := l_input_files L;
     l_summary := l_summary L; l_transfers := l_transfers L |}.
Definition set_update
    (x : gmap (string * string) (list (TaskUpdate * FileUpdate * UnitUpdate)))
    (L : Locals) : Locals :=
  {| l_fail_cleanup := l_fail_cleanup L; l_merge_cleanup := l_merge_cleanup L; l_update := x;
     l_propagate := l_propagate L; l_input_files := l_input_files L;
     l_summary := l_summary L; l_transfers := l_transfers L |}.
Definition set_propagate (x : gmap string (gmap string OutputInfo)) (L : Locals) : Locals :=
  {| l_fail_cleanup := l_fail_cleanup L; l_merge_cleanup := l_merge_cleanup L;
     l_update := l_update L; l_propagate := x; l_input_files := l_input_files L;
     l_summary := l_summary L; l_transfers := l_transfers L |}.
Definition set_input_files (x : gmap string (gset string)) (L : Locals) : Locals :=
  {| l_fail_cleanup := l_fail_cleanup L; l_merge_cleanup := l_merge_cleanup L;
     l_update := l_update L; l_propagate := l_propagate L; l_input_files := x;
     l_summary := l_summary L; l_transfers := l_transfers L |}.
Definition set_summary (x : ReleaseSummary) (L : Locals) : Locals :=
  {| l_fail_cleanup := l_fail_cleanup L; l_merge_cleanup := l_merge_cleanup L;
     l_update := l_update L; l_propagate := l_propagate L;
     l_input_files := l_input_files L; l_summary := x; l_transfers := l_transfers L |}.
Definition set_transfers (x : Transfers) (L : Locals) : Locals :=
  {| l_fail_cleanup := l_fail_cleanup L; l_merge_cleanup := l_merge_cleanup L;
     l_update := l_update L; l_propagate := l_propagate L;
     l_input_files := l_input_files L; l_summary := l_summary L; l_transfers := x |}.

(** [for dep in wflow.dependents: propagate[dep.label][outfn] = outinfo] *)
Definition propagate_to (deps : list string) (outfn : string) (outinfo : OutputInfo)
    (p : gmap string (gmap string OutputInfo)) : gmap string (gmap string OutputInfo) :=
  foldl (fun p dep => <[dep := <[outfn := outinfo]> (default ∅ (p !! dep))]> p) p deps.

(** The test that lets a successful task's output go to the dependents. *)
Definition qualifies (wflow : Workflow) (handler : Handler) : bool :=
  (bool_decide (merge_size wflow <= 0) || h_merge handler)
  && bool_decide (0 < length (outputs handler))%nat.

(** The block under [measure('handler')]: what happens to one task once its
    handler has reported [failed]. *)
Definition handle (wflow : Workflow) (handler : Handler) (failed : bool)
    (file_update : FileUpdate) (L : Locals) : M Locals :=
  if failed then
    let faildir := util_move (workdir wflow) (h_id handler) "failed" in
    emit (EMove (workdir wflow) (h_id handler) "failed") ;;
    ret (set_fail_cleanup (l_fail_cleanup L ++ map snd (outputs handler))
           (set_summary (summary_dir (pretty (h_id handler)) faildir (l_summary L)) L))
  else
    emit (EMove (workdir wflow) (h_id handler) "successful") ;;
    let merge := h_merge handler in
    let L1 :=
      if qualifies wflow handler then
        match outputs handler with
        | (_, outfn) :: _ =>
            set_propagate
              (propagate_to (dependents wflow) outfn (output_info handler) (l_propagate L)) L
        | [] => L
        end
      else L in
    let L2 :=
      if merge then set_merge_cleanup (l_merge_cleanup L1 ++ input_files handler) L1
      else L1 in
    let L3 :=
      if cleanup_input wflow then
        set_input_files
          (<[h_dataset handler :=
               default ∅ (l_input_files L2 !! h_dataset handler)
               ∪ list_to_set (map snd file_update)]> (l_input_files L2)) L2
      else L2 in
    ret L3.

(** The body of the loop over the completed tasks. *)
Definition release_task (cfg : Config) (task : Task) (L : Locals) : M Locals :=
  tp <- get ;;
  match taskhandlers tp !! tag task with
  | None => raise (KeyError (pretty (tag task)))
  | Some handler =>
      let '(failed, task_update, file_update, unit_update, summary', transfers') :=
        process handler task (l_summary L) (l_transfers L) in
      let L := set_transfers transfers' (set_summary summary' L) in
      wflow <- getattr_workflow cfg (h_dataset handler) ;;
      when (elk cfg) (emit (EElk "index_task") ;; emit (EElk "index_task_update")) ;;
      L <- handle wflow handler failed file_update L ;;
      let key := (h_dataset handler, unit_source handler) in
      let L :=
        set_update
          (<[key := default [] (l_update L !! key)
                    ++ [(task_update, file_update, unit_update)]]> (l_update L)) L in
      modify (fun tp => set_handlers (delete (tag task) (taskhandlers tp)) tp) ;;
      ret L
  end.

Definition newline : string := String (Ascii.ascii_of_nat 10) EmptyString.

(** [fs.remove] on one cleanup list, under its [except] clauses.  [tasks] is
    there because the error message names the loop variable [task], which
    still holds the last task of the loop. *)
Definition remove (paths : list string) : M unit :=
  fun tp => (tp, [ERemove paths], fs_remove paths).

Definition try_remove (tasks : list Task) (cleanup : list string) : M unit :=
  try_catch (remove cleanup)
    (fun e =>
       match e with
       | IOError | OSError => ret tt
       | ValueError msg =>
           match last tasks with
           | Some task =>
               log "error" ("error removing " +:+ pretty (tag task) +:+ ":" +:+ newline +:+ msg)
           | None => raise (RuntimeError "NameError: task")
           end
       | _ => raise e
       end).

(** The block under [measure('cleanup')]. *)
Definition cleanup_files (tasks : list Task) (L : Locals) : M unit :=
  input_cleanup <-
    (if bool_decide (0 < size (l_input_files L))%nat then
       emit (EStore (FinishedFiles (map fst (map_to_list (l_input_files L))))) ;;
       tp <- get ;;
       ret (finished_files (store tp) (l_input_files L))
     else ret []) ;;
  foldM (fun cleanup _ =>
           if bool_decide (0 < length cleanup)%nat then try_remove tasks cleanup else ret tt)
        [l_fail_cleanup L; l_merge_cleanup L ++ input_cleanup] tt.

(** The block under [measure('propagate')]. *)
Definition propagate_files (cfg : Config) (L : Locals) : M unit :=
  foldM (fun (entry : string * gmap string OutputInfo) _ =>
           let '(lbl, infos) := entry in
           wflow <- getattr_workflow cfg lbl ;;
           emit (EStore (RegisterFiles (map fst (map_to_list infos)) lbl)) ;;
           modify (fun tp =>
                     set_store (register_files (store tp) infos lbl (unique_arguments wflow)) tp))
        (map_to_list (l_propagate L)) tt.

Definition index_summary : M unit :=
  fun tp => (tp, [EStore WorkflowStatus; EElk "index_summary"], elk_index_summary).

(** [release] up to the commit of the updates: both status updates, the
    loop over the tasks and [update_units]. *)
Definition release_head (cfg : Config) (tasks : list Task) : M Locals :=
  update_task_status (map (fun task => (IntId (tag task), dash.DONE)) tasks) ;;
  L <- foldM (release_task cfg) tasks locals_init ;;
  update_task_status (map (fun task => (IntId (tag task), dash.RETRIEVED)) tasks) ;;
  when (bool_decide (0 < size (l_update L))%nat)
    (emit (ELog (LogSummary (l_summary L))) ;;
     emit (EStore (UpdateUnits (map fst (map_to_list (l_update L))))) ;;
     modify (fun tp => set_store (update_units (store tp) (l_update L)) tp)) ;;
  ret L.

(** [release] after the cleanup: propagation, transfer counters, indexing. *)
Definition release_tail (cfg : Config) (L : Locals) : M unit :=
  propagate_files cfg L ;;
  when (bool_decide (0 < size (l_transfers L))%nat)
    (emit (EStore UpdateTransfers) ;;
     modify (fun tp => set_store (update_transfers (store tp) (l_transfers L)) tp)) ;;
  when (elk cfg)
    (try_catch index_summary
       (fun e => log "error" ("ELK failed to index summary:" +:+ newline +:+ exn_str e))).

Definition release (cfg : Config) (tasks : list Task) : M unit :=
  L <- release_head cfg tasks ;;
  cleanup_files tasks L ;;
  release_tail cfg L.

(** *** obtain *)

(** The constituent task of a merge task's [lumis] entry. *)
Definition constituent (l : lumi) : Z := let '(task, _, _, _) := l in task.

(** [get_report(label, task)] *)
Definition get_report (cfg : Config) (lbl : string) (task : Z) : string :=
  path_join [cfg_workdir cfg; lbl; "successful"; util_id2dir task; "report.json"].

(** The loop over the constituents of a merge task.  It fills [missing],
    [infiles] and [inreports]; [list(wflow.get_outputs(task))[0]] raises
    [IndexError] on a workflow without outputs. *)
Fixpoint scan_constituents (cfg : Config) (wflow : Workflow) (lbl : string)
    (lumis : list lumi) (missing : list Z) (infiles : list (Z * string))
    (inreports : list string)
  : result (list Z * list (Z * string) * list string) :=
  match lumis with
  | [] => Ok (missing, infiles, inreports)
  | (task, _, _, _) :: rest =>
      let report := get_report cfg lbl task in
      match get_outputs wflow task with
      | [] => Raise IndexError
      | (_, infile) :: _ =>
          if isfile report
          then scan_constituents cfg wflow lbl rest missing
                 (infiles ++ [(task, infile)]) (inreports ++ [report])
          else scan_constituents cfg wflow lbl rest (missing ++ [task]) infiles inreports
      end
  end.

(** The [if merge:] branch up to the call of [wflow.adjust]: it returns the
    input files and the reports the merge task is built from. *)
Definition merge_inputs (cfg : Config) (wflow : Workflow) (ti : TaskInfo)
  : M (list (Z * string) * list string) :=
  match scan_constituents cfg wflow (ti_label ti) (ti_lumis ti) [] [] [] with
  | Raise e => raise e
  | Ok (missing, infiles, inreports) =>
      when (bool_decide (0 < length missing)%nat)
        (log "warning"
           ("the following have been marked as failed because their output could not be found: "
            +:+ join_ids missing) ;;
         emit (EStore (UpdateMissing missing)) ;;
         modify (fun tp => set_store (update_missing (store tp) missing) tp)) ;;
      when (bool_decide (length infiles <= 1)%nat)
        (log "debug"
           ("skipping task " +:+ pretty (ti_id ti) +:+ " with only one input file!")) ;;
      ret (infiles, inreports)
  end.

(** The body of the loop over [taskinfos]: one task is assembled, its
    parameters are written, its handler is stored and its descriptor is
    appended to [tasks]. *)
Definition assemble (cfg : Config) (ti : TaskInfo) : M Descriptor :=
  wflow <- getattr_workflow cfg (ti_label ti) ;;
  let id := ti_id ti in
  let merge := ti_merge ti in
  let jdir := util_taskdir (workdir wflow) id in
  let inputs :=
    cfg_inputs cfg ++ [(path_join [jdir; "parameters.json"], "parameters.json", false)] in
  let outs := [(path_join [jdir; "report.json"], "report.json")] in
  let env : gmap string string :=
    list_to_map [ ("LOBSTER_CVMFS_PROXY", cvmfs_proxy cfg);
                  ("LOBSTER_FRONTIER_PROXY", frontier_proxy cfg);
                  ("LOBSTER_OSG_VERSION", osg_version cfg) ] in
  fr <- (if merge then merge_inputs cfg wflow ti else ret (ti_files ti, [])) ;;
  let '(files, reports) := fr in
  let handler :=
    {| h_id := id; h_dataset := ti_label ti; h_files := files; h_lumis := ti_lumis ti;
       h_taskdir := jdir; h_merge := merge |} in
  let manifest :=
    adjust wflow handler reports {| m_inputs := inputs; m_outputs := outs; m_env := env |} in
  tp <- get ;;
  let '(monitorid, syncid) := tel_register (dashboard tp) id in
  emit (EWriteParameters jdir monitorid syncid) ;;
  modify (fun tp => set_handlers (<[id := handler]> (taskhandlers tp)) tp) ;;
  ret {| d_category := if merge then "merge" else category_name wflow;
         d_cmd := "sh wrapper.sh python task.py parameters.json";
         d_id := id; d_manifest := manifest; d_jdir := jdir |}.

(** The first loop of [obtain]: merge tasks are claimed for every workflow. *)
Definition claim_merge_step (wflow : Workflow) (taskinfos : list TaskInfo)
  : M (list TaskInfo) :=
  emit (EStore (PopUnmergedTasks (label wflow) (merge_size wflow) 10)) ;;
  tp <- get ;;
  let '(s, infos) := pop_unmerged_tasks (store tp) (label wflow) (merge_size wflow) 10 in
  modify (set_store s) ;;
  ret (taskinfos ++ infos).

Definition claim_merges (cfg : Config) : M (list TaskInfo) :=
  foldM claim_merge_step (workflows cfg) [].

(** The second loop: units are claimed as the allocation algorithm says. *)
Definition claim_unit_step (d : string * Z * Qc) (taskinfos : list TaskInfo)
  : M (list TaskInfo) :=
  let '(lbl, ntasks, taper) := d in
  emit (EStore (PopUnits lbl ntasks taper)) ;;
  tp <- get ;;
  let '(s, infos) := pop_units (store tp) lbl ntasks taper in
  modify (set_store s) ;;
  log "debug" ("created " +:+ pretty (length infos) +:+ " tasks for workflow " +:+ lbl) ;;
  ret (taskinfos ++ infos).

Definition claim_units (directives : list (string * Z * Qc)) (taskinfos : list TaskInfo)
  : M (list TaskInfo) :=
  foldM claim_unit_step directives taskinfos.

(** Everything up to [if not taskinfos]. *)
Definition claim (cfg : Config) (total : Z) (tasks : gmap string Z) : M (list TaskInfo) :=
  tp <- get ;;
  let remaining := map (fun wflow => (wflow, work_left (store tp) (label wflow))) (workflows cfg) in
  foldM (fun wflow (_ : unit) => emit (EStore (WorkLeft (label wflow)))) (workflows cfg) tt ;;
  merges <- claim_merges cfg ;;
  claim_units (algo_run total tasks remaining) merges.

Definition obtain (cfg : Config) (total : Z) (tasks : gmap string Z) : M (list Descriptor) :=
  taskinfos <- claim cfg total tasks ;;
  match taskinfos with
  | [] => ret []
  | _ =>
      emit (EDash (RegisterTasks (map ti_id taskinfos))) ;;
      descriptors <- mapM (assemble cfg) taskinfos ;;
      log "info" ("creating task(s) " +:+ join_ids (map ti_id taskinfos)) ;;
      emit (EDash Free) ;;
      ret descriptors
  end.

(** *** terminate, done, update *)

Definition terminate : M unit :=
  emit (EStore RunningTasks) ;;
  tp <- get ;;
  update_task_status
    (map (fun id : Z => (StrId (pretty id), dash.CANCELLED)) (running_tasks (store tp))).

Definition done : M bool :=
  emit (EStore UnfinishedUnits) ;;
  tp <- get ;;
  let left := unfinished_units (store tp) in
  emit (EStore Merged) ;;
  ret (merged (store tp) && bool_decide (left = 0)).

(** The call of the telemetry's [update_tasks] as a method of the provider. *)
Definition dashboard_update_tasks (now now' : Qc) (queue : dash.Queue)
    (exclude : list string) : M unit :=
  fun tp =>
    let '(t, r) := tel_update_tasks now now' queue exclude (dashboard tp) in
    (set_dashboard t tp, [EDash (UpdateTasks exclude)], r).

(** [update(queue)]; [now] and [now'] are the two readings of the clock that
    [update_tasks] takes. *)
Definition update (now now' : Qc) (queue : dash.Queue) : M unit :=
  let exclude_states := [dash.DONE; dash.WAITING_RETRIEVAL] in
  try_catch (dashboard_update_tasks now now' queue exclude_states)
    (fun e =>
       log "warning" "could not update task states to dashboard" ;;
       emit (ELog (LogException e))).

End Provider.

End source.

(** ** A unit store for the examples *)

Module ledger.
Import source.

Inductive unit_state :=
| Pending
| Assigned (task : Z)
| Successful (task : Z)
| Failed
| Merged.

Inductive task_status :=
| Dispatched
| Succeeded
| TaskFailed
| Cancelled.

Record Unit := {
  u_id : Z;
  u_label : string;
  u_file : string;
  u_state : unit_state
}.

Record Row := {
  t_id : Z;
  t_label : string;
  t_merge : bool;
  t_status : task_status;
  t_inputs : list Z;                     (* the constituents of a merge task *)
  t_merged_by : option Z                 (* the merge task that claimed it *)
}.

(** Modelled from the spec: the unit store is not part of the files at
    hand.  This is the ledger of sections 3 and 4.1 in its simplest form: a
    table of units with their lifecycle state, a table of tasks, and the
    task id counter.  One unit makes one task, every task output has size
    one, and [taper] is not used. *)
Record Ledger := {
  units : list Unit;
  tasks : list Row;
  max_taskid : Z;
  transfers : Transfers
}.

Definition unfinished (u : Unit) : bool :=
  match u_state u with Successful _ | Merged => false | _ => true end.

Definition work_left (s : Ledger) (l : string) : Z :=
  Z.of_nat (length (filter (fun u => bool_decide (u_label u = l) && unfinished u) (units s))).

Definition unfinished_units (s : Ledger) : Z :=
  Z.of_nat (length (filter (fun u => unfinished u) (units s))).

Definition is_dispatched (t : Row) : bool :=
  match t_status t with Dispatched => true | _ => false end.

Definition running_tasks (s : Ledger) : list Z :=
  map t_id (filter (fun t => is_dispatched t) (tasks s)).

Definition unmerged (l : string) (t : Row) : bool :=
  bool_decide (t_label t = l) && negb (t_merge t)
  && match t_status t with Succeeded => true | _ => false end
  && match t_merged_by t with None => true | Some _ => false end.

Definition merged (s : Ledger) : bool :=
  forallb (fun t => negb (unmerged (t_label t) t)) (tasks s).

(** The full groups of [k] elements of a list, at most [n] of them. *)
Fixpoint groups {A} (k n : nat) (l : list A) (fuel : nat) : list (list A) :=
  match fuel, n with
  | S fuel', S n' =>
      if bool_decide (0 < k <= length l)%nat
      then take k l :: groups k n' (drop k l) fuel'
      else []
  | _, _ => []
  end.

Definition claim_for (id : Z) (g : list Z) (t : Row) : Row :=
  if bool_decide (t_id t ∈ g)
  then {| t_id := t_id t; t_label := t_label t; t_merge := t_merge t;
          t_status := t_status t; t_inputs := t_inputs t; t_merged_by := Some id |}
  else t.

Definition pop_unmerged_tasks (s : Ledger) (l : string) (merge_size max_batches : Z)
  : Ledger * list TaskInfo :=
  let candidates := map t_id (filter (fun t => unmerged l t) (tasks s)) in
  let gs := groups (Z.to_nat merge_size) (Z.to_nat max_batches) candidates
                   (length candidates) in
  foldl (fun (acc : Ledger * list TaskInfo) g =>
           let '(s, infos) := acc in
           let id := max_taskid s + 1 in
           ({| units := units s;
               tasks := map (claim_for id g) (tasks s)
                        ++ [{| t_id := id; t_label := l; t_merge := true;
                               t_status := Dispatched; t_inputs := g;
                               t_merged_by := None |}];
               max_taskid := id; transfers := transfers s |},
            infos ++ [{| ti_id := id; ti_label := l; ti_files := [];
                         ti_lumis := map (fun t => (t, 0, 0, 0)) g;
                         ti_unique_arg := None; ti_merge := true |}]))
        (s, []) gs.

Definition is_pending (l : string) (u : Unit) : bool :=
  bool_decide (u_label u = l) && match u_state u with Pending => true | _ => false end.

Definition assign (id : Z) (uid : Z) (u : Unit) : Unit :=
  if bool_decide (u_id u = uid)
  then {| u_id := u_id u; u_label := u_label u; u_file := u_file u; u_state := Assigned id |}
  else u.

Definition pop_units (s : Ledger) (l : string) (n : Z) (taper : Qc)
  : Ledger * list TaskInfo :=
  let chosen := take (Z.to_nat n) (filter (fun u => is_pending l u) (units s)) in
  foldl (fun (acc : Ledger * list TaskInfo) (u : Unit) =>
           let '(s, infos) := acc in
           let id := max_taskid s + 1 in
           ({| units := map (assign id (u_id u)) (units s);
               tasks := tasks s
                        ++ [{| t_id := id; t_label := l; t_merge := false;
                               t_status := Dispatched; t_inputs := [];
                               t_merged_by := None |}];
               max_taskid := id; transfers := transfers s |},
            infos ++ [{| ti_id := id; ti_label := l; ti_files := [(u_id u, u_file u)];
                         ti_lumis := [(u_id u, 0, 0, 0)];
                         ti_unique_arg := None; ti_merge := false |}]))
        (s, []) chosen.

(** A task update is the task id and whether the task failed. *)
Definition settle (upd : Z * bool) (s : Ledger) : Ledger :=
  let '(id, bad) := upd in
  {| units :=
       map (fun u =>
              match u_state u with
              | Assigned t =>
                  if bool_decide (t = id)
                  then {| u_id := u_id u; u_label := u_label u; u_file := u_file u;
                          u_state := if bad then Pending else Successful id |}
                  else u
              | _ => u
              end) (units s);
     tasks :=
       map (fun t =>
              if bool_decide (t_id t = id)
              then {| t_id := t_id t; t_label := t_label t; t_merge := t_merge t;
                      t_status := if bad then TaskFailed else Succeeded;
                      t_inputs := t_inputs t; t_merged_by := t_merged_by t |}
              else t) (tasks s);
     max_taskid := max_taskid s; transfers := transfers s |}.

Definition update_units (s : Ledger)
    (upd : gmap (string * string) (list ((Z * bool) * FileUpdate * unit))) : Ledger :=
  foldr (fun (e : (Z * bool) * FileUpdate * unit) s => settle e.1.1 s) s
        (concat (map snd (map_to_list upd))).

Definition update_missing (s : Ledger) (ids : list Z) : Ledger :=
  {| units :=
       map (fun u =>
              match u_state u with
              | Successful t =>
                  if bool_decide (t ∈ ids)
                  then {| u_id := u_id u; u_label := u_label u; u_file := u_file u;
                          u_state := Failed |}
                  else u
              | _ => u
              end) (units s);
     tasks :=
       map (fun t =>
              if bool_decide (t_id t ∈ ids)
              then {| t_id := t_id t; t_label := t_label t; t_merge := t_merge t;
                      t_status := TaskFailed; t_inputs := t_inputs t;
                      t_merged_by := t_merged_by t |}
              else t) (tasks s);
     max_taskid := max_taskid s; transfers := transfers s |}.

Definition referenced (s : Ledger) (f : string) : bool :=
  existsb (fun u => bool_decide (u_file u = f)
                    && match u_state u with Pending | Assigned _ => true | _ => false end)
          (units s).

Definition finished_files (s : Ledger) (m : gmap string (gset string)) : list string :=
  filter (fun f => negb (referenced s f))
         (concat (map (fun e : string * gset string => elements e.2) (map_to_list m))).

Definition register_files (s : Ledger) (infos : gmap string unit) (l : string)
    (unique_args : list (option string)) : Ledger :=
  let fresh := Z.of_nat (length (units s)) in
  {| units :=
       units s
       ++ imap (fun i f => {| u_id := fresh + Z.of_nat i; u_label := l; u_file := f;
                              u_state := Pending |})
               (map fst (map_to_list infos));
     tasks := tasks s; max_taskid := max_taskid s; transfers := transfers s |}.

Definition update_transfers (s : Ledger) (t : Transfers) : Ledger :=
  {| units := units s; tasks := tasks s; max_taskid := max_taskid s;
     transfers := t ∪ transfers s |}.

#[export] Instance ledger_store : UnitStore (Z * bool) unit unit Ledger := {|
  source.work_left := work_left;
  source.pop_unmerged_tasks := pop_unmerged_tasks;
  source.pop_units := pop_units;
  source.update_units := update_units;
  source.update_missing := update_missing;
  source.finished_files := finished_files;
  source.register_files := register_files;
  source.update_transfers := update_transfers;
  source.running_tasks := running_tasks;
  source.unfinished_units := unfinished_units;
  source.merged := merged
|}.

End ledger.

(** ** Properties used in the statements *)

Module props.
Import source.

Section Props.

Context {Store : Type}.

(** [ensures R P m]: whatever [m] returns or raises, the provider before
    and after it are related by [R] and all its events satisfy [P]. *)
Definition ensures {A} (R : relation (TaskProvider (Store := Store))) (P : event → Prop) (m : M A) : Prop :=
  ∀ tp tp' evs r, m tp = (tp', evs, r) → R tp tp' ∧ Forall P evs.

(** The relations and event properties used in the statements. *)

Definition any_change : relation (TaskProvider (Store := Store)) := fun _ _ => True.
Definition same_store : relation (TaskProvider (Store := Store)) :=
  fun tp tp' => store tp' = store tp.
Definition same_dashboard : relation (TaskProvider (Store := Store)) :=
  fun tp tp' => dashboard tp' = dashboard tp.
Definition handlers_shrink : relation (TaskProvider (Store := Store)) :=
  fun tp tp' => ∀ k, taskhandlers tp !! k = None → taskhandlers tp' !! k = None.
Definition same_handlers : relation (TaskProvider (Store := Store)) :=
  fun tp tp' => taskhandlers tp' = taskhandlers tp.
(** No handler appears: the table after the call is part of the one before. *)
Definition handlers_sub : relation (TaskProvider (Store := Store)) :=
  fun tp tp' => taskhandlers tp' ⊆ taskhandlers tp.

End Props.

Section Loop.

Context {TaskUpdate UnitUpdate OutputInfo : Type}.
Context {Env : Environment TaskUpdate UnitUpdate OutputInfo}.

(** The local variables after the block under [measure('handler')]. *)
Definition handle_locals (wflow : Workflow) (handler : Handler) (failed : bool)
    (file_update : FileUpdate)
    (L : Locals (TaskUpdate := TaskUpdate) (UnitUpdate := UnitUpdate)
           (OutputInfo := OutputInfo)) : Locals :=
  if failed then
    set_fail_cleanup (l_fail_cleanup L ++ map snd (outputs handler))
      (set_summary
         (summary_dir (pretty (h_id handler))
            (util_move (workdir wflow) (h_id handler) "failed") (l_summary L)) L)
  else
    let L1 :=
      if qualifies wflow handler then
        match outputs handler with
        | (_, outfn) :: _ =>
            set_propagate
              (propagate_to (dependents wflow) outfn (output_info handler) (l_propagate L)) L
        | [] => L
        end
      else L in
    let L2 :=
      if h_merge handler
      then set_merge_cleanup (l_merge_cleanup L1 ++ input_files handler) L1
      else L1 in
    if cleanup_input wflow then
      set_input_files
        (<[h_dataset handler :=
             default ∅ (l_input_files L2 !! h_dataset handler)
             ∪ list_to_set (map snd file_update)]> (l_input_files L2)) L2
    else L2.

(** The local variables after one pass of the loop of [release], for a
    task whose handler and workflow were found. *)
Definition body_locals (wflow : Workflow) (handler : Handler) (task : Task)
    (L : Locals (TaskUpdate := TaskUpdate) (UnitUpdate := UnitUpdate)
           (OutputInfo := OutputInfo)) : Locals :=
  let '(failed, task_update, file_update, unit_update, summary', transfers') :=
    process handler task (l_summary L) (l_transfers L) in
  let L := set_transfers transfers' (set_summary summary' L) in
  let L := handle_locals wflow handler failed file_update L in
  let key := (h_dataset handler, unit_source handler) in
  set_update
    (<[key := default [] (l_update L !! key)
              ++ [(task_update, file_update, unit_update)]]> (l_update L)) L.

(** What [process] says about a task: whether it failed. *)
Definition verdict (handler : Handler) (task : Task)
    (L : Locals (TaskUpdate := TaskUpdate) (UnitUpdate := UnitUpdate)
           (OutputInfo := OutputInfo)) : bool :=
  (process handler task (l_summary L) (l_transfers L)).1.1.1.1.1.


End Loop.

(** The indexing events of one pass of the loop, and the directory a task
    directory is moved to. *)
Definition elk_task_events (cfg : Config) : list event :=
  if elk cfg then [EElk "index_task"; EElk "index_task_update"] else [].

Definition destination (failed : bool) : string :=
  if failed then "failed" else "successful".


Definition any_event : event → Prop := fun _ => True.
Definition no_commit : event → Prop := fun e => ∀ keys, e ≠ EStore (UpdateUnits keys).
Definition no_status_update : event → Prop :=
  fun e => ∀ data, e ≠ EDash (UpdateTaskStatus data).
Definition no_claim : event → Prop :=
  fun e => (∀ l m b, e ≠ EStore (PopUnmergedTasks l m b))
           ∧ (∀ l n t, e ≠ EStore (PopUnits l n t)).
Definition no_log : event → Prop := fun e => ∀ l, e ≠ ELog l.

Definition merge_claim (wflow : Workflow) : event :=
  EStore (PopUnmergedTasks (label wflow) (merge_size wflow) 10).

Definition no_merge_claim : event → Prop :=
  fun e => ∀ l m b, e ≠ EStore (PopUnmergedTasks l m b).

End props.

(** ** A small project for the closed examples *)

Module example.
Import source ledger.

(** The environment of the examples.  A task has failed when its exit
    status or its result code is not zero; its update is its id and that
    flag.  Every handler has one output, named after the workflow and the
    task; [rm] and [present] stand for the file system. *)
Definition env (rm : list string -> result unit) (present : string -> bool)
  : Environment (Z * bool) unit unit := {|
  process handler task summary transfers :=
    let bad := negb (bool_decide (return_status task = 0))
               || negb (bool_decide (result_code task = 0)) in
    (bad, (h_id handler, bad), map (fun f : Z * string => (0, 0, f.2)) (h_files handler), tt,
     summary_wq (result_code task) (pretty (h_id handler))
       (summary_exe (return_status task) (pretty (h_id handler)) summary),
     transfers);
  outputs handler :=
    [("/store/" +:+ h_dataset handler +:+ "/out_" +:+ pretty (h_id handler) +:+ ".root",
      h_dataset handler +:+ "/out_" +:+ pretty (h_id handler) +:+ ".root")];
  output_info _ := tt;
  input_files handler := map snd (h_files handler);
  unit_source handler := "units_" +:+ h_dataset handler;
  adjust _ _ _ manifest := manifest;
  algo_run total _ remaining :=
    omap (fun e : Workflow * Z =>
            if bool_decide (0 < Z.min total e.2)
            then Some (label e.1, Z.min total e.2, 1%Qc) else None) remaining;
  isfile := present;
  fs_remove := rm;
  util_move wd id dest := path_join [wd; dest; pretty id];
  util_taskdir wd id := path_join [wd; "running"; pretty id];
  util_id2dir id := pretty id;
  elk_index_summary := Ok tt;
  sha1_tail s := s;
  stamp fmt :=
    if bool_decide (fmt = "%F_%T") then "2016-02-01_12:00:00" else "2016-02-01 12:00:00"
|}.

Definition ttbar : Workflow := {|
  label := "ttbar"; workdir := "work/ttbar"; merge_size := 2;
  dependents := ["ntuple"]; cleanup_input := false; category_name := "reco";
  parent := None; unique_arguments := [None];
  get_outputs id := [("out.root", "ttbar/out_" +:+ pretty id +:+ ".root")]
|}.

Definition ntuple : Workflow := {|
  label := "ntuple"; workdir := "work/ntuple"; merge_size := -1;
  dependents := ["plots"]; cleanup_input := false; category_name := "ana";
  parent := Some "ttbar"; unique_arguments := [None];
  get_outputs id := [("tree.root", "ntuple/tree_" +:+ pretty id +:+ ".root")]
|}.

Definition plots : Workflow := {|
  label := "plots"; workdir := "work/plots"; merge_size := -1;
  dependents := []; cleanup_input := false; category_name := "ana";
  parent := Some "ntuple"; unique_arguments := [None];
  get_outputs id := [("plots.root", "plots/plots_" +:+ pretty id +:+ ".root")]
|}.

Definition cfg : Config := {|
  workflows := [ttbar; ntuple; plots];
  cfg_workdir := "work";
  cfg_inputs := [("work/siteconf", "siteconf", false)];
  elk := false;
  cvmfs_proxy := "http://proxy:3128";
  frontier_proxy := "http://proxy:3128";
  osg_version := "3.3"
|}.

Definition row (id : Z) (l : string) (st : task_status) : Row :=
  {| t_id := id; t_label := l; t_merge := false; t_status := st;
     t_inputs := []; t_merged_by := None |}.

Definition unit_ (id : Z) (l f : string) (st : unit_state) : Unit :=
  {| u_id := id; u_label := l; u_file := f; u_state := st |}.

(** Two tasks of [ttbar] are running, each on one unit. *)
Definition running_ledger : Ledger := {|
  units := [unit_ 1 "ttbar" "a.root" (Assigned 1); unit_ 2 "ttbar" "b.root" (Assigned 2)];
  tasks := [row 1 "ttbar" Dispatched; row 2 "ttbar" Dispatched];
  max_taskid := 2;
  transfers := ∅
|}.

(** The same two tasks have succeeded and wait to be merged. *)
Definition succeeded_ledger : Ledger := {|
  units := [unit_ 1 "ttbar" "a.root" (Successful 1); unit_ 2 "ttbar" "b.root" (Successful 2)];
  tasks := [row 1 "ttbar" Succeeded; row 2 "ttbar" Succeeded];
  max_taskid := 2;
  transfers := ∅
|}.

Definition is_cancelled (s : Ledger) (id : Z) : bool :=
  existsb (fun t => bool_decide (t_id t = id)
                    && match t_status t with Cancelled => true | _ => false end)
          (tasks s).

Definition handler_of (id : Z) (l : string) (file : string) : Handler :=
  {| h_id := id; h_dataset := l; h_files := [(id, file)]; h_lumis := [(id, 0, 0, 0)];
     h_taskdir := path_join ["work"; l; "running"; pretty id]; h_merge := false |}.

(** A provider with the two running tasks and their handlers. *)
Definition running_provider (t : Telemetry) : TaskProvider := {|
  taskhandlers := {[ 1 := handler_of 1 "ttbar" "a.root"; 2 := handler_of 2 "ttbar" "b.root" ]};
  store := running_ledger;
  dashboard := t
|}.

(** A provider after both tasks were released, before merging. *)
Definition idle_provider : TaskProvider := {|
  taskhandlers := ∅;
  store := succeeded_ledger;
  dashboard := Monitor
|}.

(** A provider with one running task of the workflow without merging. *)
Definition ntuple_provider : TaskProvider := {|
  taskhandlers := {[ 7 := handler_of 7 "ntuple" "c.root" ]};
  store := {| units := [unit_ 3 "ntuple" "c.root" (Assigned 7)];
              tasks := [row 7 "ntuple" Dispatched];
              max_taskid := 7; transfers := ∅ |};
  dashboard := Monitor
|}.

(** A provider with two running tasks of the workflow without merging. *)
Definition mixed_provider : TaskProvider := {|
  taskhandlers := {[ 7 := handler_of 7 "ntuple" "c.root"; 8 := handler_of 8 "ntuple" "d.root" ]};
  store := {| units := [unit_ 3 "ntuple" "c.root" (Assigned 7);
                        unit_ 4 "ntuple" "d.root" (Assigned 8)];
              tasks := [row 7 "ntuple" Dispatched; row 8 "ntuple" Dispatched];
              max_taskid := 8; transfers := ∅ |};
  dashboard := Monitor
|}.

Definition completed (id status code : Z) : Task :=
  {| tag := id; return_status := status; result_code := code |}.

(** The merge task that the store forms from tasks 1 and 2. *)
Definition merge_info : TaskInfo := {|
  ti_id := 3; ti_label := "ttbar"; ti_files := [];
  ti_lumis := [(1, 0, 0, 0); (2, 0, 0, 0)];
  ti_unique_arg := None; ti_merge := true
|}.

Definition always_ok : list string -> result unit := fun _ => Ok tt.
Definition always_ioerror : list string -> result unit := fun _ => Raise IOError.
Definition all_present : string -> bool := fun _ => true.
(** Only the report of task 1 is on disk. *)
Definition only_first : string -> bool :=
  fun f => bool_decide (f = "work/ttbar/successful/1/report.json").

(** Removal always works and only the first report exists; removal always
    fails with [IOError]. *)
Definition env_missing := env always_ok only_first.
Definition env_ioerror := env always_ioerror all_present.

Definition the_dashboard : dash.Dashboard := dash.init (Q2Qc 300) "lobster_demo" "T3_US_NotreDame".

Definition a_queue : dash.Queue :=
  {| dash.task_table_keys := Ok [1; 2];
     dash.task_state := fun _ => dash.WORK_QUEUE_TASK_RUNNING |}.

Definition broken_queue : dash.Queue :=
  {| dash.task_table_keys := Raise (AttributeError "_task_table");
     dash.task_state := fun _ => dash.WORK_QUEUE_TASK_RUNNING |}.

End example.

(** ** Drivers used in the statements *)

Module driver.

(** One call of [Dashboard.update_tasks]: the two clock readings, the queue
    and the excluded statuses. *)
Record Call := {
  c_now : Qc;
  c_now' : Qc;
  c_queue : dash.Queue;
  c_exclude : list string
}.

(** The dashboard after a sequence of [update_tasks] calls; a call that
    raises leaves the dashboard as it was when the exception left it. *)
Definition run_update_tasks (sha1_tail : string -> string) (stamp : string -> string)
    (calls : list Call) (d : dash.Dashboard) : dash.Dashboard :=
  foldl (fun d c =>
           (dash.update_tasks sha1_tail stamp (c_now c) (c_now' c) (c_queue c) (c_exclude c) d).1)
        d calls.

(** A dashboard that has recorded no state, forwarded no status and sent
    no message. *)
Definition quiet (d : dash.Dashboard) : Prop :=
  dash.states d = ∅
  ∧ Forall (fun data => data = []) (dash.status_calls d)
  ∧ dash.sent d = [].

End driver.

(** ** The rest of the two files *)

Module more.
Import source.

(** What the loop of [update_tasks] adds to [data]: an id goes in exactly
    when its current status is not excluded and the state map already holds
    that same, non-empty status for it. *)
Definition forwardable (q : dash.Queue) (exclude : list string) (st : gmap Z string)
    (ids : list Z) (id_ : Z) (s : string) : Prop :=
  id_ ∈ ids ∧ dash.status_map (dash.task_state q id_) = Some s ∧ (s ∉ exclude)
  ∧ st !! id_ = Some s ∧ truthy s = true.

(** *** Dashboard.register_tasks *)

(** What the messages take from the dashboard object besides the fields of
    [dash.Dashboard]: [username], [commonname], [__cmssw_version],
    [__executable], and [os.environ.get('HOSTNAME', '')]. *)
Record Account := {
  username : string;
  commonname : string;
  cmssw_version : string;
  executable : string;
  hostname : string
}.

(** The dictionary appended to [data] for one id.  [bossId] is [str(id)],
    and [id] there is the built-in function, not the loop variable. *)
Definition job_meta (sha1_tail : string -> string) (a : Account) (d : dash.Dashboard)
    (id_ : ident) : gmap string string :=
  let '(monitorid, syncid) := dash.generate_ids sha1_tail d id_ in
  list_to_map
    [ ("taskId", dash.workflowid d); ("jobId", monitorid); ("sid", syncid);
      ("GridJobSyncId", syncid); ("broker", "condor");
      ("bossId", "<built-in function id>"); ("SubmissionType", "Direct");
      ("TargetSE", "Many_Sites"); ("localId", EmptyString); ("tool", "lobster");
      ("JSToolVersion", "3.2.1"); ("tool_ui", hostname a);
      ("scheduler", "work_queue"); ("GridName", "/CN=" +:+ commonname a);
      ("ApplicationVersion", cmssw_version a); ("taskType", "analysis");
      ("vo", "cms"); ("CMSUser", username a); ("user", username a);
      ("resubmitter", "user"); ("exe", executable a) ].

(** [register_tasks] is a generator.  Its state between two resumptions:
    the id whose pair was yielded last and whose dictionary is not appended
    yet, the ids still to come, [data], and whether it has finished. *)
Record Registration := {
  rg_yielded : option ident;
  rg_rest : list ident;
  rg_data : list (gmap string string);
  rg_finished : bool
}.

(** The generator object right after the call [register_tasks(ids)]. *)
Definition register_tasks (ids : list ident) : Registration :=
  {| rg_yielded := None; rg_rest := ids; rg_data := []; rg_finished := false |}.

(** One [next()]: the pair that is yielded, or [None] for [StopIteration]. *)
Definition register_next (sha1_tail : string -> string) (stamp : string -> string) (a : Account)
    (g : Registration) (d : dash.Dashboard)
  : Registration * dash.Dashboard * option (string * string) :=
  if rg_finished g then (g, d, None)
  else
    let data :=
      match rg_yielded g with
      | Some id_ => rg_data g ++ [job_meta sha1_tail a d id_]
      | None => rg_data g
      end in
    match rg_rest g with
    | id_ :: rest =>
        ({| rg_yielded := Some id_; rg_rest := rest; rg_data := data;
            rg_finished := false |},
         d, Some (dash.generate_ids sha1_tail d id_))
    | [] =>
        ({| rg_yielded := None; rg_rest := []; rg_data := data; rg_finished := true |},
         dash.send stamp "JobMeta" data d, None)
    end.

(** [n] times [next()], collecting what is yielded; it stops at the first
    [StopIteration]. *)
Fixpoint register_take (sha1_tail : string -> string) (stamp : string -> string) (a : Account)
    (n : nat) (g : Registration) (d : dash.Dashboard)
  : Registration * dash.Dashboard * list (string * string) :=
  match n with
  | O => (g, d, [])
  | S n' =>
      match register_next sha1_tail stamp a g d with
      | (g', d', None) => (g', d', [])
      | (g', d', Some yielded) =>
          let '(g'', d'', rest) := register_take sha1_tail stamp a n' g' d' in
          (g'', d'', yielded :: rest)
      end
  end.

(** *** The executable name chosen in TaskProvider.__init__ *)

(** [any(cmsconfigs)]: some parameter set is neither [None] nor empty. *)
Definition any_pset (wfs : list (option string * option string)) : bool :=
  existsb (fun w => from_option truthy false w.1) wfs.

(** The name registered under the checkpoint [executable], from the
    [(pset, command)] pairs of the workflows.  With no workflow at all
    [all(...)] holds and [cmds[0]] raises [IndexError]. *)
Definition exename (wfs : list (option string * option string)) : result (option string) :=
  if any_pset wfs then Ok (Some "cmsRun")
  else
    match map snd wfs with
    | [] => Raise IndexError
    | (c0 :: _) as cmds =>
        if forallb (fun x => bool_decide (x = c0) && negb (bool_decide (x = None))) cmds
        then Ok c0
        else Ok (Some "noncmsRun")
    end.

(** *** ReleaseSummary.wq and ReleaseSummary.__str__ *)

(** [wq(status, taskid)] as the loop it is, over the keys of [flags] in the
    order [keys] in which the dictionary happens to yield them. *)
Definition summary_wq_loop (keys : list Z) (status : Z) (taskid : string)
    (s : ReleaseSummary) : ReleaseSummary :=
  foldl (fun s flag =>
           if bool_decide (status = flag)
           then {| rs_exe := rs_exe s;
                   rs_wq := <[flag := default [] (rs_wq s !! flag) ++ [taskid]]> (rs_wq s);
                   rs_taskdirs := rs_taskdirs s; rs_monitors := rs_monitors s |}
           else s)
        s keys.

End more.

(** ** Facts about the dashboard *)

Module dash_facts.
Import dash driver.

Section Facts.

Variable sha1_tail : string -> string.
Variable stamp : string -> string.

(** An id is forwarded only when the state map already holds the status
    that is about to be stored: the loop never changes the map. *)
Lemma collect_states q exclude ids st data :
  (collect q exclude ids st data).1 = st.
Proof.
  revert st data. induction ids as [|id_ rest IH]; intros st data; simpl; [done|].
  destruct (status_map (task_state q id_)) as [status|]; [|done].
  case_bool_decide; [apply IH|].
  destruct (st !! id_) as [s|] eqn:Hs; simpl; [|apply IH].
  destruct (truthy s); simpl; [|apply IH].
  case_bool_decide as Heq; simpl; [|apply IH].
  rewrite IH. subst s. by apply insert_id.
Qed.

(** With an empty state map every id is skipped. *)
Lemma collect_empty q exclude ids data :
  (collect q exclude ids ∅ data).2 = Ok data
  ∨ ∃ e, (collect q exclude ids ∅ data).2 = Raise e.
Proof.
  revert data. induction ids as [|id_ rest IH]; intros data; simpl; [by left|].
  destruct (status_map (task_state q id_)) as [status|]; [|right; eauto].
  case_bool_decide; [apply IH|].
  rewrite lookup_empty. simpl. apply IH.
Qed.

Lemma update_tasks_quiet now now' q exclude d :
  quiet d → quiet (update_tasks sha1_tail stamp now now' q exclude d).1.
Proof.
  intros (Hst & Hcalls & Hsent). unfold update_tasks.
  case_bool_decide; simpl; [|done].
  destruct (task_table_keys q) as [ids|e]; simpl; [|done].
  rewrite Hst.
  pose proof (collect_states q exclude ids ∅ []) as H1.
  destruct (collect_empty q exclude ids []) as [H2|[e H2]];
    destruct (collect q exclude ids ∅ []) as [st r]; simpl in *; subst; simpl.
  - split; [done|]. split.
    + apply Forall_app. split; [done|]. by constructor.
    + cbn. by rewrite Hsent.
  - done.
Qed.

Lemma run_update_tasks_quiet calls d :
  quiet d → quiet (run_update_tasks sha1_tail stamp calls d).
Proof.
  revert d. induction calls as [|c calls IH]; intros d Hd; simpl; [done|].
  apply IH. by apply update_tasks_quiet.
Qed.

(** Less than [interval] seconds after the stored time the rate-limit test
    fails, whatever the queue is. *)
Lemma update_tasks_within_interval now now' q exclude d :
  (now - previous d < interval d)%Qc →
  update_tasks sha1_tail stamp now now' q exclude d = (d, Ok tt).
Proof.
  intros Hlt. unfold update_tasks.
  case_bool_decide as Hrep; simpl; [|done].
  exfalso. apply (Qclt_not_le _ _ Hrep). apply Qclt_le_weak.
  apply (Qcplus_lt_mono_r _ _ (previous d)) in Hlt.
  replace (now - previous d + previous d)%Qc with now in Hlt by ring.
  by rewrite (Qcplus_comm (previous d)).
Qed.

End Facts.

(** C10. Starting from a freshly built dashboard, after any sequence of
    [update_tasks] calls the state map is still empty, every list that was
    handed to [update_task_status] is empty, and no message has been sent:
    an id without a recorded state is always skipped, and states are only
    recorded for forwarded ids. *)
Theorem update_tasks_never_reports sha1_tail stamp interval0 wfid site calls :
  let d := run_update_tasks sha1_tail stamp calls (init interval0 wfid site) in
  states d = ∅
  ∧ Forall (fun data => data = []) (status_calls d)
  ∧ sent d = [].
Proof.
  apply run_update_tasks_quiet. by repeat split.
Qed.

End dash_facts.

(** ** Facts about the task provider *)

Module source_facts.
Import source props.

Section Facts.

Context {TaskUpdate UnitUpdate OutputInfo Store : Type}.
Context {US : UnitStore TaskUpdate UnitUpdate OutputInfo Store}.
Context {Env : Environment TaskUpdate UnitUpdate OutputInfo}.

Implicit Types (tp : TaskProvider (Store := Store)) (cfg : Config).

#[local] Abbreviation ensures R P m := (props.ensures (Store := Store) R P m).
#[local] Abbreviation any_change := (props.any_change (Store := Store)).
#[local] Abbreviation same_store := (props.same_store (Store := Store)).
#[local] Abbreviation same_dashboard := (props.same_dashboard (Store := Store)).
#[local] Abbreviation handlers_shrink := (props.handlers_shrink (Store := Store)).
#[local] Abbreviation handlers_sub := (props.handlers_sub (Store := Store)).
#[local] Abbreviation same_handlers := (props.same_handlers (Store := Store)).

(** *** done *)

(** C6. [done()] only queries the store, and it answers [True] exactly when
    [merged()] holds and the number of unfinished units is zero. *)
Theorem done_iff tp :
  ∃ b, done tp = (tp, [EStore UnfinishedUnits; EStore Merged], Ok b)
       ∧ (b = true ↔ merged (store tp) = true ∧ unfinished_units (store tp) = 0).
Proof.
  exists (merged (store tp) && bool_decide (unfinished_units (store tp) = 0)).
  split; [done|].
  rewrite andb_true_iff, bool_decide_eq_true. done.
Qed.

(** *** Reasoning about methods *)

Lemma bind_ok_inv {A B} (m : M A) (k : A → M B) tp tp' evs b :
  bind m k tp = (tp', evs, Ok b) →
  ∃ tp1 ev1 a ev2,
    m tp = (tp1, ev1, Ok a) ∧ k a tp1 = (tp', ev2, Ok b) ∧ evs = ev1 ++ ev2.
Proof.
  unfold bind. destruct (m tp) as [[tp1 ev1] [a|e]]; [|done].
  destruct (k a tp1) as [[tp2 ev2] r] eqn:Hk. intros [= <- <- <-].
  by exists tp1, ev1, a, ev2.
Qed.

Lemma bind_ok {A B} (m : M A) (k : A → M B) tp tp1 ev1 a :
  m tp = (tp1, ev1, Ok a) →
  bind m k tp = (let '(tp2, ev2, r) := k a tp1 in (tp2, ev1 ++ ev2, r)).
Proof. unfold bind. intros ->. by destruct (k a tp1) as [[??]?]. Qed.

Lemma bind_raise {A B} (m : M A) (k : A → M B) tp tp1 ev1 e :
  m tp = (tp1, ev1, Raise e) → bind m k tp = (tp1, ev1, Raise e).
Proof. unfold bind. by intros ->. Qed.

Section Ensures.

Context (R : relation (TaskProvider (Store := Store))) `{!PreOrder R} (P : event → Prop).

Lemma ensures_ret {A} (a : A) : ensures R P (ret a).
Proof. intros tp tp' evs r [= <- <- <-]. done. Qed.

Lemma ensures_raise {A} e : ensures R P (raise (A := A) e).
Proof. intros tp tp' evs r [= <- <- <-]. done. Qed.

Lemma ensures_get : ensures R P get.
Proof. intros tp tp' evs r [= <- <- <-]. done. Qed.

Lemma ensures_emit e : P e → ensures R P (emit e).
Proof. intros He tp tp' evs r [= <- <- <-]. split; [done|]. by constructor. Qed.

Lemma ensures_log level msg : P (ELog (LogText level msg)) → ensures R P (log level msg).
Proof. apply ensures_emit. Qed.

Lemma ensures_modify f : (∀ tp, R tp (f tp)) → ensures R P (modify f).
Proof. intros Hf tp tp' evs r [= <- <- <-]. done. Qed.

Lemma ensures_bind {A B} (m : M A) (k : A → M B) :
  ensures R P m → (∀ a, ensures R P (k a)) → ensures R P (bind m k).
Proof.
  intros Hm Hk tp tp' evs r. unfold bind.
  destruct (m tp) as [[tp1 ev1] [a|e]] eqn:Em.
  - destruct (k a tp1) as [[tp2 ev2] r2] eqn:Ek. intros [= <- <- <-].
    destruct (Hm _ _ _ _ Em), (Hk _ _ _ _ _ Ek). split.
    + by etrans.
    + by apply Forall_app.
  - intros [= <- <- <-]. by apply (Hm _ _ _ _ Em).
Qed.

Lemma ensures_when b (m : M unit) : ensures R P m → ensures R P (when b m).
Proof. destruct b; [done|]. intros _. apply ensures_ret. Qed.

Lemma ensures_try_catch {A} (m : M A) h :
  ensures R P m → (∀ e, ensures R P (h e)) → ensures R P (try_catch m h).
Proof.
  intros Hm Hh tp tp' evs r. unfold try_catch.
  destruct (m tp) as [[tp1 ev1] [a|e]] eqn:Em.
  - intros [= <- <- <-]. by apply (Hm _ _ _ _ Em).
  - destruct (h e tp1) as [[tp2 ev2] r2] eqn:Eh. intros [= <- <- <-].
    destruct (Hm _ _ _ _ Em), (Hh _ _ _ _ _ Eh). split.
    + by etrans.
    + by apply Forall_app.
Qed.

Lemma ensures_foldM {A B} (f : B → A → M A) l a :
  (∀ b a, ensures R P (f b a)) → ensures R P (foldM f l a).
Proof.
  intros Hf. revert a. induction l as [|b l IH]; intros a; simpl.
  - apply ensures_ret.
  - apply ensures_bind; [apply Hf|]. intros a'. apply IH.
Qed.

Lemma ensures_mapM {A B} (f : A → M B) l :
  (∀ a, ensures R P (f a)) → ensures R P (mapM f l).
Proof.
  intros Hf. induction l as [|a l IH]; simpl.
  - apply ensures_ret.
  - apply ensures_bind; [apply Hf|]. intros b.
    apply ensures_bind; [apply IH|]. intros bs. apply ensures_ret.
Qed.

End Ensures.

#[local] Instance any_change_po : PreOrder any_change.
Proof. by split. Qed.
#[local] Instance same_store_po : PreOrder same_store.
Proof. split; [by intros x|]. intros x y z. unfold same_store. congruence. Qed.
#[local] Instance same_dashboard_po : PreOrder same_dashboard.
Proof. split; [by intros x|]. intros x y z. unfold same_dashboard. congruence. Qed.
#[local] Instance handlers_shrink_po : PreOrder handlers_shrink.
Proof. split; [by intros x k|]. intros x y z Hxy Hyz k Hk. by apply Hyz, Hxy. Qed.

Lemma ensures_remove (R : relation (TaskProvider (Store := Store))) `{!PreOrder R}
    (P : event → Prop) paths :
  P (ERemove paths) → ensures R P (remove paths).
Proof. intros HP tp tp' evs r [= <- <- <-]. split; [done|]. by constructor. Qed.

Lemma ensures_index_summary (R : relation (TaskProvider (Store := Store))) `{!PreOrder R}
    (P : event → Prop) :
  P (EStore WorkflowStatus) → P (EElk "index_summary") → ensures R P index_summary.
Proof. intros H1 H2 tp tp' evs r [= <- <- <-]. split; [done|]. by repeat constructor. Qed.

Ltac ens lem := apply lem; try solve [apply _].

Ltac ensures_step :=
  first
    [ ens ensures_ret | ens ensures_raise | ens ensures_get
    | ens ensures_bind; [|intros ?]
    | ens ensures_when
    | ens ensures_foldM; intros ??
    | ens ensures_mapM; intros ?
    | ens ensures_try_catch; [|intros ?]
    | ens ensures_log | ens ensures_emit | ens ensures_modify; intros ?
    | ens ensures_remove | ens ensures_index_summary
    | match goal with
      | |- ensures _ _ (match ?x with _ => _ end) => destruct x
      end ].

Ltac ensures_auto unfolds :=
  unfolds; repeat ensures_step;
  try done;
  try (unfold any_event, no_commit, no_status_update, no_claim, no_log; done);
  try (unfold any_change, same_store, same_dashboard, handlers_shrink; simpl; done).

(** *** release: what the loop does to the handler map and the store *)

Lemma handle_ensures (R : relation (TaskProvider (Store := Store))) `{!PreOrder R}
    wflow handler failed file_update L :
  ensures R any_event (handle wflow handler failed file_update L).
Proof. ensures_auto ltac:(unfold handle). Qed.

Lemma release_task_same_store cfg task L :
  ensures same_store no_commit (release_task cfg task L).
Proof.
  ensures_auto ltac:(unfold release_task, getattr_workflow, handle).
Qed.

Lemma release_task_shrink cfg task L :
  ensures handlers_shrink any_event (release_task cfg task L).
Proof.
  ensures_auto ltac:(unfold release_task, getattr_workflow, handle).
  intros k Hk. simpl. rewrite lookup_delete. by case_decide.
Qed.

Lemma update_task_status_same_store data :
  ensures same_store no_commit (update_task_status data).
Proof. ensures_auto ltac:(unfold update_task_status). Qed.

Lemma update_task_status_shrink data :
  ensures handlers_shrink any_event (update_task_status data).
Proof. ensures_auto ltac:(unfold update_task_status). Qed.

Lemma release_shrink_rest cfg tasks L :
  ensures handlers_shrink any_event
    (bind (cleanup_files tasks L) (fun _ => release_tail cfg L)).
Proof.
  ensures_auto
    ltac:(unfold release_tail, cleanup_files, try_remove, propagate_files, getattr_workflow).
Qed.

Lemma update_task_status_run data tp :
  update_task_status data tp
  = (set_dashboard (tel_update_task_status data (dashboard tp)) tp,
     [EDash (UpdateTaskStatus data)], Ok tt).
Proof. done. Qed.

Lemma release_task_missing cfg task L tp :
  taskhandlers tp !! tag task = None →
  release_task cfg task L tp = (tp, [], Raise (KeyError (pretty (tag task)))).
Proof. intros H. unfold release_task, bind, get. by rewrite H. Qed.

(** A task that went through the loop body has lost its handler. *)
Lemma release_task_ok_deletes cfg task L tp tp' evs L' :
  release_task cfg task L tp = (tp', evs, Ok L') →
  taskhandlers tp' !! tag task = None.
Proof.
  unfold release_task. intros H.
  apply bind_ok_inv in H as (tp1 & ev1 & tp0 & ev2 & [= <- <- <-] & H & _).
  destruct (taskhandlers tp !! tag task) as [handler|]; [|done].
  destruct (process _ _ _ _) as [[[[[failed tu] fu] uu] s'] t'].
  apply bind_ok_inv in H as (tp2 & ev3 & wflow & ev4 & _ & H & _).
  apply bind_ok_inv in H as (tp3 & ev5 & [] & ev6 & _ & H & _).
  apply bind_ok_inv in H as (tp4 & ev7 & L1 & ev8 & _ & H & _).
  apply bind_ok_inv in H as (tp5 & ev9 & [] & ev10 & [= <- _] & [= <- _ _] & _).
  simpl. apply lookup_delete_eq.
Qed.

Lemma foldM_release_clears cfg tasks L tp tp' evs L' :
  foldM (release_task cfg) tasks L tp = (tp', evs, Ok L') →
  ∀ t, t ∈ tasks → taskhandlers tp' !! tag t = None.
Proof.
  revert L tp evs. induction tasks as [|a tasks IH]; intros L tp evs H t Ht.
  - by apply elem_of_nil in Ht.
  - simpl in H. apply bind_ok_inv in H as (tp1 & ev1 & L1 & ev2 & Ha & Hrest & _).
    apply elem_of_cons in Ht as [->|Ht]; [|by eapply IH].
    assert (ensures handlers_shrink any_event (foldM (release_task cfg) tasks L1)) as Hs.
    { apply ensures_foldM; [apply _|]. intros. apply release_task_shrink. }
    apply (Hs _ _ _ _ Hrest). by eapply release_task_ok_deletes.
Qed.

(** The loop stops with an exception as soon as it meets a task without a
    handler; up to there it has not touched the store. *)
Lemma foldM_release_rejects cfg tasks L tp t :
  t ∈ tasks → taskhandlers tp !! tag t = None →
  ∃ tp' evs e, foldM (release_task cfg) tasks L tp = (tp', evs, Raise e)
               ∧ store tp' = store tp ∧ Forall no_commit evs.
Proof.
  revert L tp. induction tasks as [|a tasks IH]; intros L tp Ht Hnone.
  - by apply elem_of_nil in Ht.
  - simpl. destruct (release_task cfg a L tp) as [[tp1 ev1] [L1|e]] eqn:Ea.
    + destruct (release_task_same_store _ _ _ _ _ _ _ Ea) as [Hst Hev].
      assert (t ∈ tasks) as Ht'.
      { apply elem_of_cons in Ht as [->|Ht]; [|done].
        rewrite (release_task_missing _ _ _ _ Hnone) in Ea. done. }
      destruct (IH L1 tp1 Ht') as (tp' & evs & e & Hrun & Hst' & Hev').
      { by apply (release_task_shrink _ _ _ _ _ _ _ Ea). }
      exists tp', (ev1 ++ evs), e. rewrite (bind_ok _ _ _ _ _ _ Ea), Hrun.
      split; [done|]. split; [by rewrite Hst'|by apply Forall_app].
    + destruct (release_task_same_store _ _ _ _ _ _ _ Ea) as [Hst Hev].
      exists tp1, ev1, e. by rewrite (bind_raise _ _ _ _ _ _ Ea).
Qed.

Lemma release_clears cfg tasks tp tp1 evs1 :
  release cfg tasks tp = (tp1, evs1, Ok tt) →
  ∀ t, t ∈ tasks → taskhandlers tp1 !! tag t = None.
Proof.
  intros H t Ht. unfold release in H.
  apply bind_ok_inv in H as (tpa & eva & L & evb & Hhead & Hrest & _).
  unfold release_head in Hhead.
  apply bind_ok_inv in Hhead as (tpb & ? & [] & ? & _ & Hhead & _).
  apply bind_ok_inv in Hhead as (tpc & ? & L0 & ? & Hloop & Hhead & _).
  pose proof (foldM_release_clears _ _ _ _ _ _ _ Hloop t Ht) as Hnone.
  assert (handlers_shrink tpc tpa) as H1.
  { match type of Hhead with
    | ?m tpc = _ => assert (ensures handlers_shrink any_event m) as E
    end.
    { ens ensures_bind; [apply update_task_status_shrink|intros _].
      ensures_auto idtac. }
    apply (E _ _ _ _ Hhead). }
  assert (handlers_shrink tpa tp1) as H2.
  { apply (release_shrink_rest cfg tasks L _ _ _ _ Hrest). }
  by apply H2, H1.
Qed.

(** C8. Once [release] has processed a task, its handler is gone from the
    handler map, and a later [release] that is given the same tag again is
    rejected: it ends with an exception, the store is the one it started
    with, and [update_units] is not called. *)
Theorem release_twice_is_rejected cfg tasks tasks' tp tp1 evs1 t t' :
  release cfg tasks tp = (tp1, evs1, Ok tt) →
  t ∈ tasks → t' ∈ tasks' → tag t' = tag t →
  taskhandlers tp1 !! tag t = None
  ∧ ∃ tp2 evs2 e,
      release cfg tasks' tp1 = (tp2, evs2, Raise e)
      ∧ store tp2 = store tp1
      ∧ Forall no_commit evs2.
Proof.
  intros Hfirst Ht Ht' Htag.
  pose proof (release_clears _ _ _ _ _ Hfirst t Ht) as Hnone.
  split; [done|].
  set (data := map (fun task => (IntId (tag task), dash.DONE)) tasks').
  destruct (foldM_release_rejects cfg tasks' locals_init
              (set_dashboard (tel_update_task_status data (dashboard tp1)) tp1) t' Ht')
    as (tp2 & evs & e & Hrun & Hst & Hev).
  { simpl. by rewrite Htag. }
  exists tp2, ([EDash (UpdateTaskStatus data)] ++ evs), e.
  split; [|split; [done|]].
  - unfold release. erewrite bind_raise; [done|].
    unfold release_head.
    erewrite bind_ok by apply update_task_status_run.
    erewrite bind_raise by exact Hrun. done.
  - apply Forall_app. split; [|done]. by constructor.
Qed.

(** *** release: the fate of one task *)

Lemma propagate_to_keeps deps outfn (oi : OutputInfo) p dep :
  (∃ m, p !! dep = Some m ∧ m !! outfn = Some oi) →
  ∃ m, propagate_to deps outfn oi p !! dep = Some m ∧ m !! outfn = Some oi.
Proof.
  revert p. induction deps as [|d deps IH]; intros p Hp; simpl; [done|].
  apply IH. destruct (decide (d = dep)) as [->|Hne].
  - eexists. rewrite lookup_insert_eq. split; [done|]. apply lookup_insert_eq.
  - by rewrite lookup_insert_ne.
Qed.

Lemma propagate_to_in deps outfn (oi : OutputInfo) p dep :
  dep ∈ deps →
  ∃ m, propagate_to deps outfn oi p !! dep = Some m ∧ m !! outfn = Some oi.
Proof.
  revert p. induction deps as [|d deps IH]; intros p Hin.
  - by apply elem_of_nil in Hin.
  - apply elem_of_cons in Hin as [->|Hin]; simpl; [|by apply IH].
    apply propagate_to_keeps. eexists. rewrite lookup_insert_eq.
    split; [done|]. apply lookup_insert_eq.
Qed.

Lemma propagate_to_notin deps outfn (oi : OutputInfo) p dep :
  dep ∉ deps → propagate_to deps outfn oi p !! dep = p !! dep.
Proof.
  revert p. induction deps as [|d deps IH]; intros p Hin; simpl; [done|].
  apply not_elem_of_cons in Hin as [Hne Hin].
  rewrite IH by done. by rewrite lookup_insert_ne.
Qed.

Lemma qualifies_spec wflow handler :
  qualifies wflow handler = true
  ↔ ((merge_size wflow ≤ 0)%Z ∨ h_merge handler = true) ∧ outputs handler ≠ [].
Proof.
  unfold qualifies. rewrite andb_true_iff, orb_true_iff, !bool_decide_eq_true.
  destruct (outputs handler); simpl; split; intros [H1 H2]; split; try done; lia.
Qed.

(** X10. What the loop of [release] does with one completed task whose
    handler and workflow are known.  If the handler reports success the
    task directory moves to [successful], nothing is added to the failure
    cleanup, and the first output's metadata is entered for every dependent
    workflow exactly when the workflow needs no merge or the task is a merge
    task, and the handler has an output.  If it reports failure the
    directory moves to [failed], the local names of its outputs are added to
    the failure cleanup, and the propagation table is left alone. *)
Theorem release_task_outcome cfg task L tp handler wflow :
  taskhandlers tp !! tag task = Some handler →
  find_workflow cfg (h_dataset handler) = Some wflow →
  let '(failed, _, _, _, _, _) := process handler task (l_summary L) (l_transfers L) in
  ∃ L',
    release_task cfg task L tp
    = (set_handlers (delete (tag task) (taskhandlers tp)) tp,
       (if elk cfg then [EElk "index_task"; EElk "index_task_update"] else [])
       ++ [EMove (workdir wflow) (h_id handler) (if failed then "failed" else "successful")],
       Ok L')
    ∧ if failed then
        l_fail_cleanup L' = l_fail_cleanup L ++ map snd (outputs handler)
        ∧ l_propagate L' = l_propagate L
      else
        l_fail_cleanup L' = l_fail_cleanup L
        ∧ (((merge_size wflow ≤ 0)%Z ∨ h_merge handler = true) ∧ outputs handler ≠ [] →
           ∃ rf outfn rest,
             outputs handler = (rf, outfn) :: rest
             ∧ (∀ dep, dep ∈ dependents wflow →
                  ∃ m, l_propagate L' !! dep = Some m
                       ∧ m !! outfn = Some (output_info handler))
             ∧ (∀ dep, dep ∉ dependents wflow →
                  l_propagate L' !! dep = l_propagate L !! dep))
        ∧ (¬ (((merge_size wflow ≤ 0)%Z ∨ h_merge handler = true) ∧ outputs handler ≠ []) →
           l_propagate L' = l_propagate L).
Proof.
  intros Hh Hw.
  destruct (process handler task (l_summary L) (l_transfers L))
    as [[[[[failed tu] fu] uu] s'] t'] eqn:Hp.
  unfold release_task, bind, get. rewrite Hh, Hp.
  unfold getattr_workflow. rewrite Hw. simpl.
  pose proof (qualifies_spec wflow handler) as Hq.
  destruct failed; simpl.
  - eexists. split; [by destruct (elk cfg)|]. done.
  - eexists. split; [by destruct (elk cfg)|]. simpl.
    destruct (qualifies wflow handler).
    + destruct (outputs handler) as [|[rf outfn] rest] eqn:Ho.
      { by destruct (proj1 Hq eq_refl). }
      split; [by destruct (h_merge handler), (cleanup_input wflow)|].
      split; [|intros Hn; by destruct Hn, (proj1 Hq eq_refl)].
      intros _. exists rf, outfn, rest. split; [done|].
      split; intros dep Hdep; destruct (h_merge handler), (cleanup_input wflow); simpl;
        first [by apply propagate_to_in | by apply propagate_to_notin].
    + split; [by destruct (h_merge handler), (cleanup_input wflow)|].
      split; [intros Hy; by apply Hq in Hy|].
      intros _. by destruct (h_merge handler), (cleanup_input wflow).
Qed.

(** *** release: removing files *)

Lemma try_remove_quiet tasks cleanup tp :
  fs_remove cleanup = Ok tt ∨ fs_remove cleanup = Raise IOError
  ∨ fs_remove cleanup = Raise OSError →
  try_remove tasks cleanup tp = (tp, [ERemove cleanup], Ok tt).
Proof.
  unfold try_remove, try_catch, remove. by intros [-> | [-> | ->]].
Qed.

Lemma cleanup_files_quiet tasks L tp :
  (∀ paths, fs_remove paths = Ok tt ∨ fs_remove paths = Raise IOError
            ∨ fs_remove paths = Raise OSError) →
  ∃ evs, cleanup_files tasks L tp = (tp, evs, Ok tt) ∧ Forall no_log evs.
Proof.
  intros Hrm. unfold cleanup_files.
  assert (∀ cleanup, ∃ ev,
            (if bool_decide (0 < length cleanup)%nat
             then try_remove tasks cleanup else ret tt) tp = (tp, ev, Ok tt)
            ∧ Forall no_log ev) as Hone.
  { intros cleanup. case_bool_decide.
    - eexists. split; [by apply try_remove_quiet|]. by repeat constructor.
    - by eexists. }
  match goal with
  | |- ∃ evs, bind ?m _ tp = _ ∧ _ =>
      assert (∃ ev0 input_cleanup, m tp = (tp, ev0, Ok input_cleanup) ∧ Forall no_log ev0)
        as (ev0 & input_cleanup & H0 & Hl0)
  end.
  { case_bool_decide.
    - eexists _, _. split; [done|]. by repeat constructor.
    - by eexists _, _. }
  destruct (Hone (l_fail_cleanup L)) as (ev1 & H1 & Hl1).
  destruct (Hone (l_merge_cleanup L ++ input_cleanup)) as (ev2 & H2 & Hl2).
  exists (ev0 ++ ev1 ++ ev2 ++ []).
  split.
  - erewrite bind_ok by exact H0. simpl foldM.
    erewrite bind_ok by exact H1. erewrite bind_ok by exact H2. done.
  - by repeat (apply Forall_app; split).
Qed.

(** C7, as the code has it.  When removing files fails with [IOError] or
    [OSError] the exception is dropped without a log entry, and the release
    cycle goes on as if the files had been removed: the events of the
    cleanup contain no log entry, and [release] is its first part, those
    events, and then propagation, transfer counters and indexing. *)
Theorem release_swallows_removal_errors cfg tasks tp :
  (∀ paths, fs_remove paths = Ok tt ∨ fs_remove paths = Raise IOError
            ∨ fs_remove paths = Raise OSError) →
  ∃ cleanup_events : Locals → TaskProvider → list event,
    (∀ L tp1, Forall no_log (cleanup_events L tp1))
    ∧ release cfg tasks tp
      = match release_head cfg tasks tp with
        | (tp1, ev1, Raise e) => (tp1, ev1, Raise e)
        | (tp1, ev1, Ok L) =>
            match release_tail cfg L tp1 with
            | (tp2, ev2, r) => (tp2, ev1 ++ cleanup_events L tp1 ++ ev2, r)
            end
        end.
Proof.
  intros Hrm.
  exists (fun L tp1 => (cleanup_files tasks L tp1).1.2). split.
  - intros L tp1. destruct (cleanup_files_quiet tasks L tp1 Hrm) as (evs & -> & Hl). done.
  - unfold release. unfold bind at 1.
    destruct (release_head cfg tasks tp) as [[tp1 ev1] [L|e]]; [|done].
    destruct (cleanup_files_quiet tasks L tp1 Hrm) as (evs & Hc & Hl).
    unfold bind. rewrite Hc. simpl.
    by destruct (release_tail cfg L tp1) as [[tp2 ev2] r].
Qed.

(** *** terminate *)

(** C3, as the code has it.  [terminate()] asks the store for the running
    tasks, hands telemetry one [(str(id), CANCELLED)] pair per running task
    in a single call, and changes neither the store nor the handler map; on
    the dashboard that call sends one [JobStatus] message per running task,
    each with status [Killed]. *)
Theorem terminate_reports_only tp :
  let ids := running_tasks (store tp) in
  let data := map (fun id : Z => (StrId (pretty id), dash.CANCELLED)) ids in
  ∃ tp',
    terminate tp = (tp', [EStore RunningTasks; EDash (UpdateTaskStatus data)], Ok tt)
    ∧ store tp' = store tp
    ∧ taskhandlers tp' = taskhandlers tp
    ∧ length data = length ids
    ∧ match dashboard tp with
      | Monitor => dashboard tp' = Monitor
      | Dash d =>
          ∃ msgs,
            dashboard tp'
            = Dash (dash.set_sent (dash.sent d ++ msgs) (dash.log_status_call data d))
            ∧ length msgs = length ids
            ∧ Forall (fun m : gmap string string =>
                        m !! "MessageType" = Some "JobStatus"
                        ∧ m !! "StatusValue" = Some dash.CANCELLED) msgs
      end.
Proof.
  intros ids data. eexists. split; [done|]. simpl.
  split; [done|]. split; [done|]. split; [apply length_map|].
  destruct (dashboard tp) as [|d]; simpl; [done|].
  eexists. split; [done|]. subst data. split; [by rewrite !length_map|].
  apply Forall_map, Forall_map, Forall_map, Forall_forall. intros id _. simpl.
  unfold dash.status_message. simpl.
  split; by simplify_map_eq.
Qed.

(** *** update *)

(** C9. A call of [Dashboard.update_tasks] made less than [interval]
    seconds after the time stored by the last reporting call returns at
    once: the dashboard, and with it the list of sent messages, is unchanged,
    whatever the queue is and even if reading it would raise.  And [update]
    never raises: when the telemetry's [update_tasks] raises, the exception
    is logged, after a warning, and the call returns normally. *)
Theorem update_is_rate_limited_and_guarded d now (Hsoon : (now - dash.previous d < dash.interval d)%Qc) :
  (∀ now' queue exclude,
     dash.update_tasks sha1_tail stamp now now' queue exclude d = (d, Ok tt))
  ∧ (∀ tp t t' queue,
       let exclude_states := [dash.DONE; dash.WAITING_RETRIEVAL] in
       match tel_update_tasks t t' queue exclude_states (dashboard tp) with
       | (tel, Ok _) =>
           update t t' queue tp
           = (set_dashboard tel tp, [EDash (UpdateTasks exclude_states)], Ok tt)
       | (tel, Raise e) =>
           update t t' queue tp
           = (set_dashboard tel tp,
              [EDash (UpdateTasks exclude_states);
               ELog (LogText "warning" "could not update task states to dashboard");
               ELog (LogException e)],
              Ok tt)
       end).
Proof.
  split.
  - intros. by apply dash_facts.update_tasks_within_interval.
  - intros tp t t' queue exclude_states.
    unfold update, try_catch, dashboard_update_tasks. fold exclude_states.
    destruct (tel_update_tasks t t' queue exclude_states (dashboard tp)) as [tel [[]|e]]; done.
Qed.

(** *** obtain: merge tasks *)

Lemma scan_constituents_spec cfg wflow lbl lumis missing infiles inreports :
  (∀ l, l ∈ lumis → get_outputs wflow (constituent l) ≠ []) →
  let tasks := map constituent lumis in
  let here := fun t => isfile (get_report cfg lbl t) in
  ∃ missing' infiles' inreports',
    scan_constituents cfg wflow lbl lumis missing infiles inreports
    = Ok (missing', infiles', inreports')
    ∧ missing' = missing ++ List.filter (fun t => negb (here t)) tasks
    ∧ map fst infiles' = map fst infiles ++ List.filter here tasks
    ∧ inreports' = inreports ++ map (get_report cfg lbl) (List.filter here tasks).
Proof.
  revert missing infiles inreports.
  induction lumis as [|[[[task a] b] c] lumis IH]; intros missing infiles inreports Hout; simpl.
  - eexists _, _, _. split; [done|]. by rewrite !app_nil_r.
  - pose proof (Hout (task, a, b, c) ltac:(left)) as Ho. simpl in Ho.
    destruct (get_outputs wflow task) as [|[x infile] rest]; [done|].
    assert (∀ l, l ∈ lumis → get_outputs wflow (constituent l) ≠ []) as Hout'.
    { intros l Hl. apply Hout. by right. }
    destruct (isfile (get_report cfg lbl task)) eqn:Hf; simpl.
    + destruct (IH missing (infiles ++ [(task, infile)])
                   (inreports ++ [get_report cfg lbl task]) Hout')
        as (m' & i' & r' & -> & -> & Hi & ->).
      eexists _, _, _. split; [done|]. split; [done|].
      rewrite Hi, map_app. simpl. by rewrite <- !app_assoc.
    + destruct (IH (missing ++ [task]) infiles inreports Hout')
        as (m' & i' & r' & -> & -> & Hi & ->).
      eexists _, _, _. split; [done|]. split; [by rewrite <- app_assoc|]. done.
Qed.

Lemma assemble_no_status cfg ti :
  ensures same_dashboard no_status_update (assemble cfg ti).
Proof. ensures_auto ltac:(unfold assemble, merge_inputs, getattr_workflow). Qed.

Lemma assemble_no_claim cfg ti :
  ensures any_change no_claim (assemble cfg ti).
Proof. ensures_auto ltac:(unfold assemble, merge_inputs, getattr_workflow). Qed.

Lemma obtain_no_status cfg total tasks :
  ensures same_dashboard no_status_update (obtain cfg total tasks).
Proof.
  unfold obtain. ens ensures_bind.
  { ensures_auto ltac:(unfold claim, claim_merges, claim_units, claim_merge_step, claim_unit_step). }
  intros [|ti taskinfos]; [ens ensures_ret|].
  ens ensures_bind; [by ens ensures_emit|intros _].
  ens ensures_bind; [ens ensures_mapM; intros; apply assemble_no_status|intros ds].
  ensures_auto idtac.
Qed.

(** C4. Assembling a merge task whose workflow is known and has outputs.
    The constituents without a report file are handed to [update_missing],
    in one call and only if there are any; the handler of the merge task
    gets exactly the constituents whose report exists as its input files;
    and neither this step nor any other step of [obtain] sends a status
    update to telemetry or changes the dashboard. *)
Theorem assemble_merge_reports_missing cfg ti tp wflow :
  ti_merge ti = true →
  find_workflow cfg (ti_label ti) = Some wflow →
  (∀ l, l ∈ ti_lumis ti → get_outputs wflow (constituent l) ≠ []) →
  let tasks := map constituent (ti_lumis ti) in
  let here := fun t => isfile (get_report cfg (ti_label ti) t) in
  let missing := List.filter (fun t => negb (here t)) tasks in
  ∃ tp' evs d handler,
    assemble cfg ti tp = (tp', evs, Ok d)
    ∧ taskhandlers tp' !! ti_id ti = Some handler
    ∧ map fst (h_files handler) = List.filter here tasks
    ∧ (missing ≠ [] →
       EStore (UpdateMissing missing) ∈ evs
       ∧ store tp' = update_missing (store tp) missing)
    ∧ (missing = [] →
       store tp' = store tp ∧ Forall (fun e => ∀ ids, e ≠ EStore (UpdateMissing ids)) evs)
    ∧ Forall no_status_update evs
    ∧ dashboard tp' = dashboard tp
    ∧ (∀ total queued tp0 tp1 evs1 r,
         obtain cfg total queued tp0 = (tp1, evs1, r) →
         Forall no_status_update evs1 ∧ dashboard tp1 = dashboard tp0).
Proof.
  intros Hm Hw Hout tasks here missing.
  destruct (scan_constituents_spec cfg wflow (ti_label ti) (ti_lumis ti) [] [] [] Hout)
    as (missing' & infiles & inreports & Hscan & Hmiss & Hfiles & _).
  assert (missing' = missing) as -> by exact Hmiss.
  assert (map fst infiles = List.filter here tasks) as Hfiles' by exact Hfiles.
  clear Hmiss Hfiles. clearbody missing tasks here.
  destruct (assemble cfg ti tp) as [[tp' evs] r] eqn:Hrun.
  pose proof (assemble_no_status _ _ _ _ _ _ Hrun) as [Hdash Hev].
  revert Hrun. unfold assemble, getattr_workflow. rewrite Hw, Hm.
  unfold bind at 1. unfold ret at 1. cbv beta iota.
  unfold merge_inputs. rewrite Hscan.
  unfold bind, when, log, emit, modify, get, ret. simpl.
  destruct (tel_register (dashboard tp) (ti_id ti)) as [mon syn] eqn:Hreg.
  destruct missing as [|m0 ms]; simpl.
  - case_bool_decide; simpl; rewrite Hreg; simpl; intros [= <- <- <-];
      (eexists _, _, _, _; split; [done|]); simpl;
      rewrite lookup_insert_eq; (split; [done|]); (split; [done|]);
      (split; [done|]); (split; [|split; [done|split; [done|]]]).
    all: try (intros _; split; [done|]; by repeat constructor).
    all: intros; split; [by eapply obtain_no_status|by eapply (obtain_no_status)].
  - case_bool_decide; simpl; rewrite Hreg; simpl; intros [= <- <- <-];
      (eexists _, _, _, _; split; [done|]); simpl;
      rewrite lookup_insert_eq; (split; [done|]); (split; [done|]);
      (split; [intros _; split; [set_solver|done]|]); (split; [done|]);
      (split; [done|split; [done|]]).
    all: intros; split; [by eapply obtain_no_status|by eapply (obtain_no_status)].
Qed.

(** *** obtain: the order of claiming *)

Lemma work_left_loop_run (ws : list Workflow) tp :
  foldM (fun wflow (_ : unit) => emit (EStore (WorkLeft (label wflow)))) ws tt tp
  = (tp, map (fun w => EStore (WorkLeft (label w))) ws, Ok tt).
Proof.
  induction ws as [|w ws IH]; simpl; [done|].
  unfold bind. simpl. by rewrite IH.
Qed.

Lemma claim_merge_step_run wflow acc tp :
  claim_merge_step wflow acc tp
  = (set_store (pop_unmerged_tasks (store tp) (label wflow) (merge_size wflow) 10).1 tp,
     [merge_claim wflow],
     Ok (acc ++ (pop_unmerged_tasks (store tp) (label wflow) (merge_size wflow) 10).2)).
Proof.
  unfold claim_merge_step, bind, emit, get, modify, ret. simpl.
  by destruct (pop_unmerged_tasks _ _ _ _).
Qed.

Lemma claim_merges_loop_run (ws : list Workflow) tp :
  ∃ tp1 ms, ∀ acc, foldM claim_merge_step ws acc tp = (tp1, map merge_claim ws, Ok (acc ++ ms)).
Proof.
  revert tp. induction ws as [|w ws IH]; intros tp.
  - exists tp, []. intros acc. simpl. by rewrite app_nil_r.
  - destruct (IH (set_store
                    (pop_unmerged_tasks (store tp) (label w) (merge_size w) 10).1 tp))
      as (tp1 & ms & Hrest).
    exists tp1, ((pop_unmerged_tasks (store tp) (label w) (merge_size w) 10).2 ++ ms).
    intros acc. simpl foldM.
    erewrite bind_ok by apply claim_merge_step_run.
    rewrite Hrest. by rewrite app_assoc.
Qed.

Lemma claim_unit_step_run lbl n taper acc tp :
  claim_unit_step (lbl, n, taper) acc tp
  = (set_store (pop_units (store tp) lbl n taper).1 tp,
     [EStore (PopUnits lbl n taper);
      ELog (LogText "debug"
              ("created " +:+ pretty (length (pop_units (store tp) lbl n taper).2)
               +:+ " tasks for workflow " +:+ lbl))],
     Ok (acc ++ (pop_units (store tp) lbl n taper).2)).
Proof.
  unfold claim_unit_step, bind, emit, get, modify, log, emit, ret. simpl.
  by destruct (pop_units _ _ _ _).
Qed.

Lemma claim_units_run ds tp :
  ∃ tp2 us evs,
    (∀ acc, claim_units ds acc tp = (tp2, evs, Ok (acc ++ us)))
    ∧ Forall no_merge_claim evs.
Proof.
  unfold claim_units. revert tp.
  induction ds as [|[[lbl n] taper] ds IH]; intros tp.
  - exists tp, [], []. split; [|done]. intros acc. simpl. by rewrite app_nil_r.
  - destruct (IH (set_store (pop_units (store tp) lbl n taper).1 tp))
      as (tp2 & us & evs & Hrest & Hev).
    eexists tp2, ((pop_units (store tp) lbl n taper).2 ++ us), (_ ++ evs).
    split.
    + intros acc. simpl foldM.
      erewrite bind_ok by apply claim_unit_step_run.
      rewrite Hrest. by rewrite app_assoc.
    + apply Forall_app. split; [|done]. by repeat constructor.
Qed.

Lemma assemble_ok_id cfg ti tp tp' evs d :
  assemble cfg ti tp = (tp', evs, Ok d) → d_id d = ti_id ti.
Proof.
  unfold assemble. intros H.
  apply bind_ok_inv in H as (tp1 & ev1 & wflow & ev2 & _ & H & _).
  apply bind_ok_inv in H as (tp2 & ev3 & [files reports] & ev4 & _ & H & _).
  apply bind_ok_inv in H as (tp3 & ev5 & tp0 & ev6 & _ & H & _).
  destruct (tel_register (dashboard tp0) (ti_id ti)) as [mon syn].
  apply bind_ok_inv in H as (tp4 & ev7 & [] & ev8 & _ & H & _).
  apply bind_ok_inv in H as (tp5 & ev9 & [] & ev10 & _ & [= _ _ <-] & _).
  done.
Qed.

Lemma mapM_assemble_ids cfg tis tp tp' evs ds :
  mapM (assemble cfg) tis tp = (tp', evs, Ok ds) → map d_id ds = map ti_id tis.
Proof.
  revert tp tp' evs ds. induction tis as [|ti tis IH]; intros tp tp' evs ds H; simpl in H.
  - by injection H as _ _ <-.
  - apply bind_ok_inv in H as (tp1 & ev1 & d & ev2 & Hd & H & _).
    apply bind_ok_inv in H as (tp2 & ev3 & ds' & ev4 & Hds & [= _ _ <-] & _).
    simpl. f_equal; [by eapply assemble_ok_id|by eapply IH].
Qed.

(** C5. In every call of [obtain] the store is first asked for the work
    left, then for merge tasks, once per workflow with at most 10 batches,
    and only then for new units; nothing after that claims anything.  The
    task list is the merge tasks followed by the new-unit tasks, and the
    descriptors that [obtain] returns carry their ids in that order. *)
Theorem obtain_claims_merges_first cfg total queued tp :
  let evW := map (fun w => EStore (WorkLeft (label w))) (workflows cfg) in
  let evM := map merge_claim (workflows cfg) in
  ∃ tp1 tp2 ms us evU,
    claim_merges cfg tp = (tp1, evM, Ok ms)
    ∧ (∀ acc,
         claim_units
           (algo_run total queued
              (map (fun w => (w, work_left (store tp) (label w))) (workflows cfg)))
           acc tp1
         = (tp2, evU, Ok (acc ++ us)))
    ∧ Forall no_merge_claim evU
    ∧ claim cfg total queued tp = (tp2, evW ++ evM ++ evU, Ok (ms ++ us))
    ∧ ∃ tp3 evA r,
        obtain cfg total queued tp = (tp3, evW ++ evM ++ evU ++ evA, r)
        ∧ Forall no_claim evA
        ∧ match r with
          | Ok ds => map d_id ds = map ti_id (ms ++ us)
          | Raise _ => True
          end.
Proof.
  intros evW evM.
  destruct (claim_merges_loop_run (workflows cfg) tp) as (tp1 & ms & Hm).
  destruct (claim_units_run
              (algo_run total queued
                 (map (fun w => (w, work_left (store tp) (label w))) (workflows cfg))) tp1)
    as (tp2 & us & evU & Hu & HevU).
  exists tp1, tp2, ms, us, evU.
  assert (claim cfg total queued tp = (tp2, evW ++ evM ++ evU, Ok (ms ++ us))) as Hclaim.
  { unfold claim. unfold bind at 1. simpl.
    erewrite bind_ok by apply work_left_loop_run.
    unfold claim_merges. erewrite bind_ok by apply (Hm []).
    by rewrite Hu. }
  split; [apply (Hm [])|]. split; [done|]. split; [done|]. split; [done|].
  unfold obtain. erewrite bind_ok by exact Hclaim.
  destruct (ms ++ us) as [|ti tis] eqn:Htis.
  - exists tp2, [], (Ok []). simpl. by rewrite <- !app_assoc.
  - set (rest := bind (emit (EDash (RegisterTasks (map ti_id (ti :: tis))))) _).
    assert (ensures any_change no_claim rest) as Hrest.
    { subst rest. ens ensures_bind; [by ens ensures_emit|intros _].
      ens ensures_bind; [ens ensures_mapM; intros; apply assemble_no_claim|intros ds].
      ensures_auto idtac. }
    destruct (rest tp2) as [[tp3 evA] r] eqn:Hrun.
    exists tp3, evA, r. split; [by rewrite <- !app_assoc|].
    split; [apply (Hrest _ _ _ _ Hrun)|].
    destruct r as [ds|]; [|done].
    subst rest. apply bind_ok_inv in Hrun as (? & ? & [] & ? & _ & Hrun & _).
    apply bind_ok_inv in Hrun as (? & ? & ds' & ? & Hds & Hrun & _).
    apply bind_ok_inv in Hrun as (? & ? & [] & ? & _ & Hrun & _).
    apply bind_ok_inv in Hrun as (? & ? & [] & ? & _ & [= _ _ <-] & _).
    by eapply mapM_assemble_ids.
Qed.

(** *** release: from the loop to the store *)

Lemma handle_run wflow handler failed file_update L tp :
  handle wflow handler failed file_update L tp
  = (tp, [EMove (workdir wflow) (h_id handler) (destination failed)],
     Ok (handle_locals wflow handler failed file_update L)).
Proof. unfold handle, handle_locals. by destruct failed. Qed.

Lemma release_task_run cfg task L tp handler wflow :
  taskhandlers tp !! tag task = Some handler →
  find_workflow cfg (h_dataset handler) = Some wflow →
  release_task cfg task L tp
  = (set_handlers (delete (tag task) (taskhandlers tp)) tp,
     elk_task_events cfg
     ++ [EMove (workdir wflow) (h_id handler) (destination (verdict handler task L))],
     Ok (body_locals wflow handler task L)).
Proof.
  intros Hh Hw. unfold release_task, body_locals, verdict, elk_task_events.
  unfold bind at 1. unfold get at 1. cbv beta iota. rewrite Hh.
  destruct (process handler task (l_summary L) (l_transfers L))
    as [[[[[failed tu] fu] uu] s'] t'].
  unfold getattr_workflow. rewrite Hw.
  unfold bind at 1. unfold ret at 1. cbv beta iota.
  unfold bind at 1.
  assert (when (elk cfg) (bind (emit (EElk "index_task"))
                            (fun _ => emit (EElk "index_task_update"))) tp
          = (tp, if elk cfg then [EElk "index_task"; EElk "index_task_update"] else [],
             Ok tt)) as -> by (by destruct (elk cfg)).
  unfold bind at 1. rewrite handle_run.
  unfold bind, modify, ret. simpl. done.
Qed.

Lemma release_task_ok_inv cfg task L tp tp' evs L' :
  release_task cfg task L tp = (tp', evs, Ok L') →
  ∃ handler wflow,
    taskhandlers tp !! tag task = Some handler
    ∧ find_workflow cfg (h_dataset handler) = Some wflow.
Proof.
  unfold release_task. intros H.
  apply bind_ok_inv in H as (tp1 & ev1 & tp0 & ev2 & [= <- <- <-] & H & _).
  destruct (taskhandlers tp !! tag task) as [handler|] eqn:Hh; [|done].
  destruct (process _ _ _ _) as [[[[[failed tu] fu] uu] s'] t'].
  apply bind_ok_inv in H as (tp2 & ev3 & wflow & ev4 & Hw & _).
  unfold getattr_workflow in Hw.
  destruct (find_workflow cfg (h_dataset handler)) as [w|] eqn:Hf; [|done].
  by exists handler, w.
Qed.

Lemma foldM_app {A B} (f : B → A → M A) l1 l2 a tp :
  foldM f (l1 ++ l2) a tp = bind (foldM f l1 a) (foldM f l2) tp.
Proof.
  revert a tp. induction l1 as [|b l1 IH]; intros a tp; simpl.
  - unfold bind, ret. by destruct (foldM f l2 a tp) as [[??]?].
  - unfold bind. destruct (f b a tp) as [[tp1 ev1] [a1|e]]; [|done].
    rewrite IH. unfold bind.
    destruct (foldM f l1 a1 tp1) as [[tp2 ev2] [a2|e]]; [|done].
    destruct (foldM f l2 a2 tp2) as [[tp3 ev3] r]. by rewrite app_assoc.
Qed.

#[local] Instance handlers_sub_po : PreOrder handlers_sub.
Proof.
  split; [intros x; unfold handlers_sub; reflexivity|].
  intros x y z Hxy Hyz. unfold handlers_sub in *. by etrans.
Qed.















Lemma bind_inv {A B} (m : M A) (k : A → M B) tp tp' evs r :
  bind m k tp = (tp', evs, r) →
  (∃ e, m tp = (tp', evs, Raise e) ∧ r = Raise e)
  ∨ ∃ tp1 ev1 a ev2, m tp = (tp1, ev1, Ok a) ∧ k a tp1 = (tp', ev2, r) ∧ evs = ev1 ++ ev2.
Proof.
  unfold bind. destruct (m tp) as [[tp1 ev1] [a|e]].
  - destruct (k a tp1) as [[tp2 ev2] r2] eqn:Hk. intros [= <- <- <-].
    right. by exists tp1, ev1, a, ev2.
  - intros [= <- <- <-]. left. by exists e.
Qed.










(** *** release: the batch as a whole *)

(** X11. An empty batch: both status updates are sent with no task, and
    neither the store nor the file system is touched. *)
Theorem release_empty_batch cfg tp :
  elk cfg = false →
  release cfg [] tp
  = (set_dashboard
       (tel_update_task_status [] (tel_update_task_status [] (dashboard tp))) tp,
     [EDash (UpdateTaskStatus []); EDash (UpdateTaskStatus [])], Ok tt).
Proof.
  intros Helk.
  unfold release, release_head, release_tail, cleanup_files, propagate_files.
  rewrite Helk. reflexivity.
Qed.

Lemma foldM_release_no_commit cfg tasks L :
  ensures same_store no_commit (foldM (release_task cfg) tasks L).
Proof. apply ensures_foldM; [apply _|]. intros. apply release_task_same_store. Qed.

Lemma release_rest_no_commit cfg tasks L :
  ensures any_change no_commit
    (bind (cleanup_files tasks L) (fun _ => release_tail cfg L)).
Proof.
  ensures_auto
    ltac:(unfold release_tail, cleanup_files, try_remove, propagate_files, getattr_workflow).
Qed.

Lemma body_update_non_empty wflow handler task L :
  l_update (body_locals wflow handler task L) ≠ ∅.
Proof.
  unfold body_locals.
  destruct (process handler task (l_summary L) (l_transfers L))
    as [[[[[failed tu] fu] uu] s'] t'].
  simpl. apply insert_non_empty.
Qed.

Lemma foldM_release_update cfg tasks L tp tp' evs L' :
  foldM (release_task cfg) tasks L tp = (tp', evs, Ok L') →
  tasks ≠ [] → l_update L' ≠ ∅.
Proof.
  destruct tasks as [|task tasks _] using rev_ind; [done|]. intros H _.
  rewrite foldM_app in H.
  apply bind_ok_inv in H as (tp1 & ev1 & L1 & ev2 & _ & H & _).
  simpl in H. apply bind_ok_inv in H as (tp2 & ev3 & L2 & ev4 & Hone & [= _ _ <-] & _).
  destruct (release_task_ok_inv _ _ _ _ _ _ _ Hone) as (handler & wflow & Hh & Hw).
  rewrite (release_task_run _ _ _ _ _ _ Hh Hw) in Hone. injection Hone as _ _ <-.
  apply body_update_non_empty.
Qed.

(** What [release] has done when the commit is due. *)
Lemma release_head_inv cfg tasks tp tp1 ev r :
  release_head cfg tasks tp = (tp1, ev, r) →
  (Forall no_commit ev ∧ (∀ L, r = Ok L → l_update L = ∅))
  ∨ ∃ L ev0,
      r = Ok L
      ∧ ev = ev0 ++ [EStore (UpdateUnits (map fst (map_to_list (l_update L))))]
      ∧ Forall no_commit ev0.
Proof.
  unfold release_head. intros H.
  apply bind_inv in H as [(e & H & _)|(tp0 & ev0 & [] & ev1 & Hdone & H & ->)];
    [by rewrite update_task_status_run in H|].
  rewrite update_task_status_run in Hdone. injection Hdone as <- <-.
  apply bind_inv in H as [(e & H & ->)|(tpl & evl & L & ev2 & Hloop & H & ->)].
  { left. destruct (foldM_release_no_commit _ _ _ _ _ _ _ H) as [_ Hev].
    split; [|done]. apply Forall_cons. split; [done|]. done. }
  destruct (foldM_release_no_commit _ _ _ _ _ _ _ Hloop) as [_ Hev].
  apply bind_inv in H as [(e & H & _)|(tpr & ev3 & [] & ev4 & Hretr & H & ->)];
    [by rewrite update_task_status_run in H|].
  rewrite update_task_status_run in Hretr. injection Hretr as <- <-.
  destruct (bool_decide (0 < size (l_update L))%nat) eqn:Hsize; simpl in H.
  - right. injection H as _ <- <-. exists L.
    exists (EDash (UpdateTaskStatus (map (fun task => (IntId (tag task), dash.DONE)) tasks))
            :: evl
            ++ [EDash (UpdateTaskStatus
                         (map (fun task => (IntId (tag task), dash.RETRIEVED)) tasks));
                ELog (LogSummary (l_summary L))]).
    split; [done|]. split.
    + simpl. by rewrite <- app_assoc.
    + apply Forall_cons. split; [done|]. apply Forall_app. split; [done|].
      by repeat constructor.
  - left. injection H as _ <- <-. split.
    + apply Forall_cons. split; [done|]. apply Forall_app. split; [done|].
      by repeat constructor.
    + intros L' [= <-]. apply bool_decide_eq_false in Hsize.
      apply map_size_empty_iff. lia.
Qed.

(** X12. The units are committed at most once in a call of [release], and
    once, with at least one key, when a batch that is not empty has been
    released. *)
Theorem release_commits_once cfg tasks tp tp' evs r :
  release cfg tasks tp = (tp', evs, r) →
  (Forall no_commit evs
   ∨ ∃ ev1 keys ev2,
       evs = ev1 ++ EStore (UpdateUnits keys) :: ev2
       ∧ Forall no_commit ev1 ∧ Forall no_commit ev2)
  ∧ (r = Ok tt → tasks ≠ [] →
     ∃ ev1 keys ev2, evs = ev1 ++ EStore (UpdateUnits keys) :: ev2 ∧ keys ≠ []).
Proof.
  unfold release. intros H.
  apply bind_inv in H as [(e & H & ->)|(tp1 & ev1 & L & ev2 & Hhead & Hrest & ->)].
  { split; [|done].
    apply release_head_inv in H as [[Hev _]|(L & ev0 & ? & _)]; [by left|done]. }
  destruct (release_rest_no_commit _ _ _ _ _ _ _ Hrest) as [_ Hev2].
  pose proof Hhead as Hhead'.
  apply release_head_inv in Hhead as [[Hev Hempty]|(L0 & ev0 & [= <-] & -> & Hev0)].
  - split; [left; by apply Forall_app|].
    intros _ Hne. exfalso.
    unfold release_head in Hhead'.
    apply bind_ok_inv in Hhead' as (tpa & ? & [] & ? & _ & Hhead' & _).
    apply bind_ok_inv in Hhead' as (tpb & ? & L0 & ? & Hloop & Hhead' & _).
    apply bind_ok_inv in Hhead' as (tpc & ? & [] & ? & _ & Hhead' & _).
    apply bind_ok_inv in Hhead' as (tpd & ? & [] & ? & _ & [= _ _ ->] & _).
    by apply (foldM_release_update _ _ _ _ _ _ _ Hloop Hne), Hempty.
  - assert ((ev0 ++ [EStore (UpdateUnits (map fst (map_to_list (l_update L))))]) ++ ev2
            = ev0 ++ EStore (UpdateUnits (map fst (map_to_list (l_update L)))) :: ev2) as ->
      by (by rewrite <- app_assoc).
    split; [right; by eexists _, _, _|].
    intros _ Hne. eexists _, _, _. split; [done|].
    unfold release_head in Hhead'.
    apply bind_ok_inv in Hhead' as (tpa & ? & [] & ? & _ & Hhead' & _).
    apply bind_ok_inv in Hhead' as (tpb & ? & L0 & ? & Hloop & Hhead' & _).
    apply bind_ok_inv in Hhead' as (tpc & ? & [] & ? & _ & Hhead' & _).
    apply bind_ok_inv in Hhead' as (tpd & ? & [] & ? & _ & [= _ _ ->] & _).
    pose proof (foldM_release_update _ _ _ _ _ _ _ Hloop Hne) as Hupd.
    intros Hnil. apply Hupd. apply map_to_list_empty_iff.
    destruct (map_to_list (l_update L)); [done|discriminate Hnil].
Qed.

(** *** obtain: the handlers it leaves *)

#[local] Instance same_handlers_po : PreOrder same_handlers.
Proof.
  split; [by intros x|]. intros x y z. unfold props.same_handlers. congruence.
Qed.

Lemma claim_same_handlers cfg total queued :
  ensures same_handlers any_event (claim cfg total queued).
Proof.
  ensures_auto ltac:(unfold claim, claim_merges, claim_units, claim_merge_step,
                     claim_unit_step).
  all: try (destruct (pop_unmerged_tasks _ _ _ _)); try (destruct (pop_units _ _ _ _));
    repeat ensures_step; done.
Qed.

Lemma merge_inputs_same_handlers cfg wflow ti :
  ensures same_handlers any_event (merge_inputs cfg wflow ti).
Proof.
  unfold merge_inputs.
  destruct (scan_constituents _ _ _ _ _ _ _) as [[[missing infiles] inreports]|e];
    ensures_auto idtac.
Qed.

Lemma assemble_ok_handler cfg ti tp tp' evs d :
  assemble cfg ti tp = (tp', evs, Ok d) →
  d_id d = ti_id ti
  ∧ ∃ h, taskhandlers tp' = <[ti_id ti := h]> (taskhandlers tp)
         ∧ h_id h = ti_id ti ∧ h_dataset h = ti_label ti ∧ h_merge h = ti_merge ti.
Proof.
  unfold assemble. intros H.
  apply bind_ok_inv in H as (tp1 & ev1 & wflow & ev2 & Hw & H & _).
  assert (tp1 = tp) as ->.
  { unfold getattr_workflow in Hw. destruct (find_workflow _ _); [|done].
    by injection Hw as <- _ _. }
  apply bind_ok_inv in H as (tp2 & ev3 & [files reports] & ev4 & Hfr & H & _).
  assert (taskhandlers tp2 = taskhandlers tp) as Hsame.
  { destruct (ti_merge ti).
    - by destruct (merge_inputs_same_handlers _ _ _ _ _ _ _ Hfr).
    - by injection Hfr as <- _ _. }
  apply bind_ok_inv in H as (tp3 & ev5 & tp0 & ev6 & [= <- _ <-] & H & _).
  destruct (tel_register (dashboard tp2) (ti_id ti)) as [mon syn].
  apply bind_ok_inv in H as (tp4 & ev7 & [] & ev8 & [= <- _] & H & _).
  apply bind_ok_inv in H as (tp5 & ev9 & [] & ev10 & [= <- _] & [= <- _ <-] & _).
  split; [done|]. eexists. split; [simpl; by rewrite Hsame|done].
Qed.

Lemma mapM_assemble_handlers cfg tis tp tp' evs ds :
  mapM (assemble cfg) tis tp = (tp', evs, Ok ds) →
  (∀ d, d ∈ ds → ∃ h, taskhandlers tp' !! d_id d = Some h ∧ h_id h = d_id d)
  ∧ (∀ k h, taskhandlers tp !! k = Some h → k ∉ map d_id ds →
            taskhandlers tp' !! k = Some h)
  ∧ (∀ k h, taskhandlers tp !! k = Some h → h_id h = k →
            ∃ h', taskhandlers tp' !! k = Some h' ∧ h_id h' = k).
Proof.
  revert tp tp' evs ds. induction tis as [|ti tis IH]; intros tp tp' evs ds H; simpl in H.
  - injection H as <- _ <-. split; [by intros d ?%elem_of_nil|]. split; [done|eauto].
  - apply bind_ok_inv in H as (tp1 & ev1 & d0 & ev2 & Hd & H & _).
    apply bind_ok_inv in H as (tp2 & ev3 & ds' & ev4 & Hds & [= <- _ <-] & _).
    destruct (assemble_ok_handler _ _ _ _ _ _ Hd) as (Hid & h0 & Hmap & Hh0 & _).
    destruct (IH _ _ _ _ Hds) as (Hnew & Hkeep & Hinv).
    split; [|split].
    + intros d [->|Hin]%elem_of_cons; [|by apply Hnew].
      apply (Hinv _ h0); [|by rewrite Hid]. by rewrite Hmap, Hid, lookup_insert_eq.
    + intros k h Hk Hnot. simpl in Hnot. apply not_elem_of_cons in Hnot as [Hne Hnot].
      apply Hkeep; [|done]. rewrite Hmap, lookup_insert_ne; [done|]. by rewrite <- Hid.
    + intros k h Hk Hhk. destruct (decide (k = ti_id ti)) as [->|Hne].
      * apply (Hinv _ h0); [|done]. by rewrite Hmap, lookup_insert_eq.
      * apply (Hinv _ h); [|done]. by rewrite Hmap, lookup_insert_ne.
Qed.

(** X13. When [obtain] returns, every task it hands out has a handler under
    its id in the handler map, and the handlers that were there under other
    ids are still there. *)
Theorem obtain_registers_handlers cfg total queued tp tp' evs ds :
  obtain cfg total queued tp = (tp', evs, Ok ds) →
  (∀ d, d ∈ ds → ∃ h, taskhandlers tp' !! d_id d = Some h ∧ h_id h = d_id d)
  ∧ (∀ k h, taskhandlers tp !! k = Some h → k ∉ map d_id ds →
            taskhandlers tp' !! k = Some h).
Proof.
  unfold obtain. intros H.
  apply bind_ok_inv in H as (tp1 & ev1 & tis & ev2 & Hclaim & H & _).
  destruct (claim_same_handlers _ _ _ _ _ _ _ Hclaim) as [Hsame _].
  unfold props.same_handlers in Hsame.
  destruct tis as [|ti tis].
  { injection H as <- _ <-. split; [by intros d ?%elem_of_nil|].
    intros k h Hk _. by rewrite Hsame. }
  apply bind_ok_inv in H as (tp2 & ev3 & [] & ev4 & [= <- _] & H & _).
  apply bind_ok_inv in H as (tp3 & ev5 & ds' & ev6 & Hmap & H & _).
  apply bind_ok_inv in H as (tp4 & ev7 & [] & ev8 & [= <- _] & H & _).
  apply bind_ok_inv in H as (tp5 & ev9 & [] & ev10 & [= <- _] & [= <- _ <-] & _).
  destruct (mapM_assemble_handlers _ _ _ _ _ _ Hmap) as (Hnew & Hkeep & _).
  split; [done|]. intros k h Hk. apply Hkeep. by rewrite Hsame.
Qed.

End Facts.

End source_facts.

(** ** The example project, run *)

Module example_facts.
Import source props ledger example source_facts.

(** X10, witness: task 7 of [ntuple] succeeds; the workflow needs no merge
    and has the dependent [plots]. *)
Lemma release_task_outcome_witness :
  taskhandlers ntuple_provider !! 7 = Some (handler_of 7 "ntuple" "c.root")
  ∧ find_workflow cfg (h_dataset (handler_of 7 "ntuple" "c.root")) = Some ntuple
  ∧ ∃ L',
      release_task (Env := env_missing) cfg (completed 7 0 0) locals_init ntuple_provider
      = (set_handlers (delete 7 (taskhandlers ntuple_provider)) ntuple_provider,
         [EMove "work/ntuple" 7 "successful"], Ok L')
      ∧ l_fail_cleanup L' = []
      ∧ ∃ m, l_propagate L' !! "plots" = Some m ∧ m !! "ntuple/out_7.root" = Some tt.
Proof.
  assert (taskhandlers ntuple_provider !! 7 = Some (handler_of 7 "ntuple" "c.root"))
    as H1 by reflexivity.
  assert (find_workflow cfg (h_dataset (handler_of 7 "ntuple" "c.root")) = Some ntuple)
    as H2 by reflexivity.
  split; [exact H1|]. split; [exact H2|].
  pose proof (release_task_outcome (Env := env_missing) cfg (completed 7 0 0) locals_init
                ntuple_provider (handler_of 7 "ntuple" "c.root") ntuple H1 H2) as H.
  simpl in H. destruct H as (L' & Hrun & Hclean & Hyes & _).
  exists L'. split; [exact Hrun|]. split; [exact Hclean|].
  destruct Hyes as (rf & outfn & rest & Hout & Hin & _).
  { split; [left; lia|discriminate]. }
  injection Hout as _ <- _. apply Hin. set_solver.
Defined.


(** The same batch, run: the directory of task 7 goes to [successful] and its
    output is registered for [plots]; the directory of task 8 goes to
    [failed], its output is removed and nothing of it is registered. *)
Example release_mixed_batch :
  ∃ tp' summary,
    release (Env := env_missing) cfg [completed 7 0 0; completed 8 1 0] mixed_provider
    = (tp',
       [EDash (UpdateTaskStatus [(IntId 7, dash.DONE); (IntId 8, dash.DONE)]);
        EMove "work/ntuple" 7 "successful";
        EMove "work/ntuple" 8 "failed";
        EDash (UpdateTaskStatus [(IntId 7, dash.RETRIEVED); (IntId 8, dash.RETRIEVED)]);
        ELog (LogSummary summary);
        EStore (UpdateUnits [("ntuple", "units_ntuple")]);
        ERemove ["ntuple/out_8.root"];
        EStore (RegisterFiles ["ntuple/out_7.root"] "plots")],
       Ok tt)
    ∧ taskhandlers tp' = ∅.
Proof. eexists _, _. split; vm_compute; reflexivity. Qed.

(** X11, witness: an empty batch on the provider with two running tasks. *)
Lemma release_empty_batch_witness :
  elk cfg = false
  ∧ release (Env := env_missing) cfg [] (running_provider Monitor)
    = (running_provider Monitor,
       [EDash (UpdateTaskStatus []); EDash (UpdateTaskStatus [])], Ok tt).
Proof.
  assert (elk cfg = false) as H by reflexivity.
  split; [exact H|].
  exact (release_empty_batch (Env := env_missing) cfg (running_provider Monitor) H).
Defined.

(** X12, witness: the batch of two tasks. *)
Lemma release_commits_once_witness :
  ∃ tp' evs,
    release (Env := env_missing) cfg [completed 7 0 0; completed 8 1 0] mixed_provider
    = (tp', evs, Ok tt)
    ∧ (Forall no_commit evs
       ∨ ∃ ev1 keys ev2,
           evs = ev1 ++ EStore (UpdateUnits keys) :: ev2
           ∧ Forall no_commit ev1 ∧ Forall no_commit ev2)
    ∧ (Ok tt = Ok tt → [completed 7 0 0; completed 8 1 0] ≠ [] →
       ∃ ev1 keys ev2, evs = ev1 ++ EStore (UpdateUnits keys) :: ev2 ∧ keys ≠ []).
Proof.
  destruct (release (Env := env_missing) cfg [completed 7 0 0; completed 8 1 0]
              mixed_provider) as [[tp' evs] r] eqn:Hrun.
  assert (r = Ok tt) as ->.
  { change r with (tp', evs, r).2. rewrite <- Hrun. vm_compute. reflexivity. }
  exists tp', evs. split; [reflexivity|].
  exact (release_commits_once (Env := env_missing) cfg
           [completed 7 0 0; completed 8 1 0] mixed_provider tp' evs (Ok tt) Hrun).
Defined.

(** X13, witness: the store forms merge task 3, and [obtain] hands it out. *)
Lemma obtain_registers_handlers_witness :
  ∃ tp' evs ds,
    obtain (Env := env_missing) cfg 0 ∅ idle_provider = (tp', evs, Ok ds)
    ∧ (∀ d, d ∈ ds → ∃ h, taskhandlers tp' !! d_id d = Some h ∧ h_id h = d_id d)
    ∧ (∀ k h, taskhandlers idle_provider !! k = Some h → k ∉ map d_id ds →
              taskhandlers tp' !! k = Some h).
Proof.
  destruct (obtain (Env := env_missing) cfg 0 ∅ idle_provider) as [[tp' evs] r] eqn:Hrun.
  assert (∃ ds, r = Ok ds) as [ds ->].
  { change r with (tp', evs, r).2. rewrite <- Hrun. vm_compute. eexists. reflexivity. }
  exists tp', evs, ds. split; [reflexivity|].
  exact (obtain_registers_handlers (Env := env_missing) cfg 0 ∅ idle_provider tp' evs ds Hrun).
Defined.

(** C2, on the code.  The store forms merge task 3 from tasks 1 and 2, and
    only the report of task 1 is on disk.  [obtain] logs that it skips the
    task, and then stores its handler and returns its descriptor all the
    same: the merge task is dispatched with a single input file. *)
Theorem obtain_dispatches_merge_with_one_input :
  ∃ tp' evs d handler,
    obtain (Env := env_missing) cfg 0 ∅ idle_provider = (tp', evs, Ok [d])
    ∧ d_id d = 3
    ∧ d_category d = "merge"
    ∧ taskhandlers tp' !! 3 = Some handler
    ∧ h_merge handler = true
    ∧ h_files handler = [(1, "ttbar/out_1.root")]
    ∧ ELog (LogText "debug" "skipping task 3 with only one input file!") ∈ evs.
Proof.
  eexists _, _, _, _. split; [vm_compute; reflexivity|].
  split; [reflexivity|]. split; [reflexivity|].
  split; [vm_compute; reflexivity|].
  split; [reflexivity|]. split; [reflexivity|].
  apply list_elem_of_In. vm_compute. tauto.
Qed.

(** C3, counterexample.  Task 1 is running when [terminate()] is called on
    a provider with the dashboard; afterwards the store is the one it was,
    and task 1 is not cancelled in it. *)
Lemma terminate_does_not_cancel_in_store :
  1 ∈ source.running_tasks (store (running_provider (Dash the_dashboard)))
  ∧ store (terminate (Env := env_missing) (running_provider (Dash the_dashboard))).1.1
    = running_ledger
  ∧ is_cancelled
      (store (terminate (Env := env_missing) (running_provider (Dash the_dashboard))).1.1) 1
    = false.
Proof.
  split; [|split; reflexivity].
  apply list_elem_of_In. vm_compute. tauto.
Qed.

(** C4, witness: the merge task of tasks 1 and 2 when only the report of
    task 1 is on disk. *)
Lemma assemble_merge_reports_missing_witness :
  ti_merge merge_info = true
  ∧ find_workflow cfg (ti_label merge_info) = Some ttbar
  ∧ (∀ l, l ∈ ti_lumis merge_info → get_outputs ttbar (constituent l) ≠ [])
  ∧ ∃ tp' evs d handler,
      assemble (Env := env_missing) cfg merge_info idle_provider = (tp', evs, Ok d)
      ∧ taskhandlers tp' !! 3 = Some handler
      ∧ map fst (h_files handler) = [1]
      ∧ EStore (UpdateMissing [2]) ∈ evs
      ∧ store tp' = ledger.update_missing succeeded_ledger [2]
      ∧ Forall no_status_update evs.
Proof.
  assert (ti_merge merge_info = true) as H1 by reflexivity.
  assert (find_workflow cfg (ti_label merge_info) = Some ttbar) as H2 by reflexivity.
  assert (∀ l, l ∈ ti_lumis merge_info → get_outputs ttbar (constituent l) ≠ []) as H3
    by (intros l _; discriminate).
  split; [exact H1|]. split; [exact H2|]. split; [exact H3|].
  pose proof (assemble_merge_reports_missing (Env := env_missing) cfg merge_info
                idle_provider ttbar H1 H2 H3) as H.
  cbv zeta in H.
  destruct H as (tp' & evs & d & handler & Hrun & Hh & Hfiles & Hmiss & _ & Hquiet & _).
  exists tp', evs, d, handler.
  split; [exact Hrun|]. split; [exact Hh|]. split; [exact Hfiles|].
  destruct Hmiss as [Hin Hstore]; [discriminate|].
  split; [exact Hin|]. split; [exact Hstore|exact Hquiet].
Defined.

(** C7, counterexample.  Task 1 fails, and removing its output raises
    [IOError].  The release cycle ends normally, the removal is its last
    event, and no message and no exception was logged. *)
Lemma removal_ioerror_is_not_logged :
  fs_remove (Environment := env_ioerror) ["ttbar/out_1.root"] = Raise IOError
  ∧ (release (Env := env_ioerror) cfg [completed 1 1 0] (running_provider Monitor)).2 = Ok tt
  ∧ (∃ before,
       (release (Env := env_ioerror) cfg [completed 1 1 0] (running_provider Monitor)).1.2
       = before ++ [ERemove ["ttbar/out_1.root"]])
  ∧ Forall (fun e => (∀ level msg, e ≠ ELog (LogText level msg))
                     ∧ (∀ x, e ≠ ELog (LogException x)))
      (release (Env := env_ioerror) cfg [completed 1 1 0] (running_provider Monitor)).1.2.
Proof.
  split; [reflexivity|]. split; [vm_compute; reflexivity|]. split.
  - eexists. vm_compute. 
    match goal with |- ?l = _ => 
      change l with (removelast l ++ [ERemove ["ttbar/out_1.root"]]) end.
    reflexivity.
  - vm_compute. repeat constructor; discriminate.
Qed.

(** C7, witness: the same release cycle. *)
Lemma release_swallows_removal_errors_witness :
  (∀ paths, fs_remove (Environment := env_ioerror) paths = Ok tt
            ∨ fs_remove (Environment := env_ioerror) paths = Raise IOError
            ∨ fs_remove (Environment := env_ioerror) paths = Raise OSError)
  ∧ ∃ cleanup_events : Locals → TaskProvider → list event,
      (∀ L tp1, Forall no_log (cleanup_events L tp1))
      ∧ release (Env := env_ioerror) cfg [completed 1 1 0] (running_provider Monitor)
        = match release_head (Env := env_ioerror) cfg [completed 1 1 0]
                  (running_provider Monitor) with
          | (tp1, ev1, Raise e) => (tp1, ev1, Raise e)
          | (tp1, ev1, Ok L) =>
              match release_tail (Env := env_ioerror) cfg L tp1 with
              | (tp2, ev2, r) => (tp2, ev1 ++ cleanup_events L tp1 ++ ev2, r)
              end
          end.
Proof.
  assert (∀ paths, fs_remove (Environment := env_ioerror) paths = Ok tt
                   ∨ fs_remove (Environment := env_ioerror) paths = Raise IOError
                   ∨ fs_remove (Environment := env_ioerror) paths = Raise OSError) as H
    by (intros paths; right; left; reflexivity).
  split; [exact H|].
  exact (release_swallows_removal_errors (Env := env_ioerror) cfg [completed 1 1 0]
           (running_provider Monitor) H).
Defined.

(** C8, witness: task 7 is released, and then released again. *)
Lemma release_twice_is_rejected_witness :
  ∃ tp1 evs1,
    release (Env := env_missing) cfg [completed 7 0 0] ntuple_provider = (tp1, evs1, Ok tt)
    ∧ completed 7 0 0 ∈ [completed 7 0 0]
    ∧ tag (completed 7 0 0) = tag (completed 7 0 0)
    ∧ taskhandlers tp1 !! 7 = None
    ∧ ∃ tp2 evs2 e,
        release (Env := env_missing) cfg [completed 7 0 0] tp1 = (tp2, evs2, Raise e)
        ∧ store tp2 = store tp1
        ∧ Forall no_commit evs2.
Proof.
  destruct (release (Env := env_missing) cfg [completed 7 0 0] ntuple_provider)
    as [[tp1 evs1] r] eqn:Hrun.
  assert (r = Ok tt) as ->.
  { change r with (tp1, evs1, r).2. rewrite <- Hrun. vm_compute. reflexivity. }
  assert (completed 7 0 0 ∈ [completed 7 0 0]) as Hin by (left).
  exists tp1, evs1. split; [reflexivity|]. split; [exact Hin|]. split; [reflexivity|].
  exact (release_twice_is_rejected (Env := env_missing) cfg [completed 7 0 0]
           [completed 7 0 0] ntuple_provider tp1 evs1 (completed 7 0 0) (completed 7 0 0)
           Hrun Hin Hin eq_refl).
Defined.

(** C9, witness: 100 seconds after start-up, with an interval of 300, a
    queue that cannot even be read does no harm. *)
Lemma update_is_rate_limited_and_guarded_witness :
  (Q2Qc 100 - dash.previous the_dashboard < dash.interval the_dashboard)%Qc
  ∧ dash.update_tasks (sha1_tail (Environment := env_missing))
      (stamp (Environment := env_missing)) (Q2Qc 100) (Q2Qc 101) broken_queue
      [dash.DONE; dash.WAITING_RETRIEVAL] the_dashboard
    = (the_dashboard, Ok tt).
Proof.
  assert (Q2Qc 100 - dash.previous the_dashboard < dash.interval the_dashboard)%Qc as H
    by (vm_compute; reflexivity).
  split; [exact H|].
  exact (proj1 (update_is_rate_limited_and_guarded (Store := Ledger) (Env := env_missing)
                  the_dashboard (Q2Qc 100) H) (Q2Qc 101) broken_queue
           [dash.DONE; dash.WAITING_RETRIEVAL]).
Defined.

(** C10 on a run: the first call comes too early, the second reports.  Both
    queue ids are running, yet the one list handed on is empty and the state
    map stays empty. *)
Example update_tasks_forwards_nothing :
  let d := driver.run_update_tasks (sha1_tail (Environment := env_missing))
             (stamp (Environment := env_missing))
             [ {| driver.c_now := Q2Qc 100; driver.c_now' := Q2Qc 100;
                  driver.c_queue := a_queue; driver.c_exclude := [dash.DONE] |};
               {| driver.c_now := Q2Qc 400; driver.c_now' := Q2Qc 401;
                  driver.c_queue := a_queue; driver.c_exclude := [dash.DONE] |} ]
             the_dashboard in
  dash.states d = ∅ ∧ dash.status_calls d = [[]] ∧ dash.sent d = []
  ∧ dash.previous d = Q2Qc 401.
Proof. vm_compute. repeat split; reflexivity. Qed.

(** After the interval the same queue makes [update_tasks] raise, and
    [update] logs the exception and returns. *)
Example update_logs_a_broken_queue :
  ∃ tp',
    update (Env := env_missing) (Q2Qc 1000) (Q2Qc 1001) broken_queue
      (running_provider (Dash the_dashboard))
    = (tp',
       [EDash (UpdateTasks [dash.DONE; dash.WAITING_RETRIEVAL]);
        ELog (LogText "warning" "could not update task states to dashboard");
        ELog (LogException (AttributeError "_task_table"))],
       Ok tt).
Proof. eexists. vm_compute. reflexivity. Qed.

End example_facts.

(** ** More about the dashboard *)

Module dash_more.
Import dash driver more.

Lemma string_length_app (s r : string) :
  String.length (s +:+ r) = (String.length s + String.length r)%nat.
Proof. induction s as [|c s IH]; simpl; [done|]. by rewrite IH. Qed.

Lemma string_app_prefix_inj (s1 s2 r1 r2 : string) :
  String.length s1 = String.length s2 → s1 +:+ r1 = s2 +:+ r2 → s1 = s2.
Proof.
  revert s2. induction s1 as [|c s1 IH]; intros [|c' s2] Hlen Heq; simpl in *; try done.
  injection Heq as -> Heq. f_equal. apply IH; [lia|done].
Qed.

Section Facts.

Variable sha1_tail : string -> string.
Variable stamp : string -> string.

(** X1. The monitor id and the sync id each determine the task id: two
    integer task ids with the same monitor id, or with the same sync id, are
    the same id. *)
Theorem generate_ids_inj d (z1 z2 : Z) :
  (generate_ids sha1_tail d (IntId z1)).1 = (generate_ids sha1_tail d (IntId z2)).1
  ∨ (generate_ids sha1_tail d (IntId z1)).2 = (generate_ids sha1_tail d (IntId z2)).2 →
  z1 = z2.
Proof.
  unfold generate_ids. cbn [fst snd str]. intros [H|H]; apply (inj pretty).
  - apply string_app_prefix_inj in H; [done|].
    apply (f_equal String.length) in H. rewrite !string_length_app in H. lia.
  - by repeat apply (inj (String.app _)) in H.
Qed.

(** X2. [update_task_status] sends one [JobStatus] message per pair, in the
    order of the pairs, after what was sent before; the message of a pair
    carries its status and the two ids generated for its task, and nothing
    else about the dashboard changes. *)
Theorem update_task_status_sends d data :
  let d' := update_task_status sha1_tail stamp data d in
  states d' = states d ∧ previous d' = previous d ∧ interval d' = interval d
  ∧ ∃ msgs,
      sent d' = sent d ++ msgs
      ∧ length msgs = length data
      ∧ ∀ i id status,
          data !! i = Some (id, status) →
          ∃ m : gmap string string,
            msgs !! i = Some m
            ∧ m !! "MessageType" = Some "JobStatus"
            ∧ m !! "taskId" = Some (workflowid d)
            ∧ m !! "StatusValue" = Some status
            ∧ m !! "jobId" = Some (generate_ids sha1_tail d id).1
            ∧ m !! "sid" = Some (generate_ids sha1_tail d id).2.
Proof.
  simpl. split; [done|]. split; [done|]. split; [done|].
  eexists. split; [done|]. split; [by rewrite !length_map|].
  intros i id status Hi. eexists. split.
  { rewrite !list_lookup_fmap, Hi. done. }
  unfold status_message. simpl. repeat split; by simplify_map_eq.
Qed.

Lemma collect_forwards q exclude ids st data st' data' :
  collect q exclude ids st data = (st', Ok data') →
  ∃ new : list (ident * string),
    data' = data ++ new
    ∧ Forall (fun p => ∃ id_, p.1 = IntId id_) new
    ∧ ∀ id_ s, (IntId id_, s) ∈ new ↔ forwardable q exclude st ids id_ s.
Proof.
  unfold forwardable.
  revert st data. induction ids as [|id_ rest IH]; intros st data H; simpl in H.
  - injection H as <- <-. exists []. split; [by rewrite app_nil_r|]. split; [done|].
    intros i s. split; [by intros ?%elem_of_nil|]. by intros (?%elem_of_nil & _).
  - destruct (status_map (task_state q id_)) as [status|] eqn:Hs; [|done].
    assert (¬ ((status ∉ exclude) ∧ st !! id_ = Some status ∧ truthy status = true) →
            collect q exclude rest st data = (st', Ok data') →
            ∃ new : list (ident * string),
              data' = data ++ new
              ∧ Forall (fun p => ∃ i, p.1 = IntId i) new
              ∧ ∀ i s, (IntId i, s) ∈ new ↔
                       i ∈ id_ :: rest ∧ status_map (task_state q i) = Some s
                       ∧ (s ∉ exclude) ∧ st !! i = Some s ∧ truthy s = true) as Hskip.
    { intros Hno Hrun. destruct (IH _ _ Hrun) as (new & -> & Hids & Hnew).
      exists new. split; [done|]. split; [done|].
      intros i s. rewrite Hnew. split.
      - intros (? & ?). split; [by right|done].
      - intros ([->|Hi]%elem_of_cons & Hm & Hex & Hst & Ht); [|done].
        destruct Hno. rewrite Hs in Hm. injection Hm as ->. done. }
    case_bool_decide as Hex.
    { apply Hskip; [|done]. by intros [? _]. }
    destruct (st !! id_) as [s0|] eqn:Hst; simpl in H.
    2:{ apply Hskip; [|done]. by intros (_ & ? & _). }
    destruct (truthy s0) eqn:Ht; simpl in H.
    2:{ apply Hskip; [|done]. intros (_ & [= ->] & ?). congruence. }
    case_bool_decide as Heq; simpl in H.
    2:{ apply Hskip; [|done]. intros (_ & [= ->] & ?). done. }
    subst s0. rewrite (insert_id st id_ status Hst) in H.
    destruct (IH _ _ H) as (new & -> & Hids & Hnew).
    exists ((IntId id_, status) :: new). split; [by rewrite <- app_assoc|].
    split; [constructor; [by exists id_|done]|].
    intros i s. rewrite elem_of_cons, Hnew. split.
    + intros [[= -> ->]|(? & ?)]; [|split; [by right|done]].
      split; [by left|done].
    + intros ([->|Hi]%elem_of_cons & Hm & Hrest); [|by right].
      left. rewrite Hs in Hm. by injection Hm as ->.
Qed.

(** X3. [update_tasks] never changes the state map, whatever it holds.
    When it gets as far as [update_task_status], the list it hands on
    consists of the queue ids whose current status is not excluded and is
    already recorded, unchanged and non-empty, in the state map. *)
Theorem update_tasks_forwards_unchanged now now' q exclude d :
  match update_tasks sha1_tail stamp now now' q exclude d with
  | (d', r) =>
      states d' = states d
      ∧ (status_calls d' = status_calls d
         ∨ ∃ ids data,
             task_table_keys q = Ok ids ∧ r = Ok tt
             ∧ status_calls d' = status_calls d ++ [data]
             ∧ Forall (fun p => ∃ id_, p.1 = IntId id_) data
             ∧ ∀ id_ s, (IntId id_, s) ∈ data ↔ forwardable q exclude (states d) ids id_ s)
  end.
Proof.
  unfold update_tasks. case_bool_decide; simpl; [|by split; [|left]].
  destruct (task_table_keys q) as [ids|e]; simpl; [|by split; [|left]].
  pose proof (dash_facts.collect_states q exclude ids (states d) []) as Hst.
  destruct (collect q exclude ids (states d) []) as [st [data|e]] eqn:Hrun;
    simpl in *; subst st; [|by split; [|left]].
  split; [done|]. right. exists ids, data.
  destruct (collect_forwards _ _ _ _ _ _ _ Hrun) as (new & -> & Hids & Hnew).
  simpl. split; [done|]. split; [done|]. split; [done|]. split; [exact Hids|exact Hnew].
Qed.

Lemma update_tasks_reports now now' q exclude d :
  (previous d + interval d < now)%Qc →
  previous (update_tasks sha1_tail stamp now now' q exclude d).1 = now'
  ∧ interval (update_tasks sha1_tail stamp now now' q exclude d).1 = interval d.
Proof.
  intros Hrep. unfold update_tasks. rewrite bool_decide_eq_true_2 by done. simpl.
  destruct (task_table_keys q) as [ids|e]; simpl; [|done].
  by destruct (collect q exclude ids (states d) []) as [st [data|e]].
Qed.

(** X4. The rate limit is exact.  A call whose clock reading is not later
    than [__previous + interval] returns at once and leaves the dashboard as
    it is; any later call stores the new time, also when it then fails
    on the queue, in which case nothing is sent. *)
Theorem update_tasks_rate_limit now now' q exclude d :
  if bool_decide (previous d + interval d < now)%Qc
  then
    match update_tasks sha1_tail stamp now now' q exclude d with
    | (d', r) =>
        previous d' = now' ∧ interval d' = interval d
        ∧ (∀ e, r = Raise e → sent d' = sent d ∧ status_calls d' = status_calls d)
    end
  else update_tasks sha1_tail stamp now now' q exclude d = (d, Ok tt).
Proof.
  unfold update_tasks. case_bool_decide; simpl; [|done].
  destruct (task_table_keys q) as [ids|e]; simpl; [|done].
  destruct (collect q exclude ids (states d) []) as [st [data|e]]; simpl; [|done].
  split; [done|]. split; [done|]. intros e. discriminate.
Qed.

(** X5. After a call that reported at clock reading [now'], every call
    made less than [interval] seconds after [now'] is silent. *)
Theorem update_tasks_then_quiet now now' q exclude t t' q2 exclude2 d :
  (previous d + interval d < now)%Qc →
  (t - now' < interval d)%Qc →
  update_tasks sha1_tail stamp t t' q2 exclude2
    (update_tasks sha1_tail stamp now now' q exclude d).1
  = ((update_tasks sha1_tail stamp now now' q exclude d).1, Ok tt).
Proof.
  intros Hrep Hsoon.
  destruct (update_tasks_reports now now' q exclude d Hrep) as [Hp Hi].
  apply dash_facts.update_tasks_within_interval. by rewrite Hp, Hi.
Qed.

(** *** register_tasks *)

Variable account : Account.

Lemma register_take_run ids y data d :
  register_take sha1_tail stamp account (length ids)
    {| rg_yielded := y; rg_rest := ids; rg_data := data; rg_finished := false |} d
  = ({| rg_yielded := if ids is [] then y else last ids;
        rg_rest := [];
        rg_data :=
          if ids is [] then data
          else data ++ from_option (fun i => [job_meta sha1_tail account d i]) [] y
               ++ map (job_meta sha1_tail account d) (removelast ids);
        rg_finished := false |},
     d, map (generate_ids sha1_tail d) ids).
Proof.
  revert y data. induction ids as [|i ids IH]; intros y data; [done|].
  simpl length. cbn [register_take]. unfold register_next. cbn [rg_finished rg_rest rg_yielded rg_data].
  rewrite IH. destruct ids as [|i' ids]; simpl.
  - f_equal. f_equal. f_equal. destruct y; simpl; by rewrite ?app_nil_r.
  - f_equal. f_equal. f_equal. destruct y; simpl; by rewrite <- ?app_assoc.
Qed.

(** X6. [register_tasks] yields, id by id, the pair that [generate_ids]
    gives for it, and up to the last pair it sends nothing.  Only when it
    is resumed once more does it send the [JobMeta] messages, one per id in
    order, and end. *)
Theorem register_tasks_sends_at_end ids d :
  ∃ g g',
    register_take sha1_tail stamp account (length ids) (register_tasks ids) d
    = (g, d, map (generate_ids sha1_tail d) ids)
    ∧ rg_finished g = false
    ∧ register_next sha1_tail stamp account g d
      = (g', send stamp "JobMeta" (map (job_meta sha1_tail account d) ids) d, None)
    ∧ rg_finished g' = true
    ∧ ∀ d2, register_next sha1_tail stamp account g' d2 = (g', d2, None).
Proof.
  unfold register_tasks.
  exists {| rg_yielded := if ids is [] then None else last ids;
            rg_rest := [];
            rg_data := if ids is [] then []
                       else map (job_meta sha1_tail account d) (removelast ids);
            rg_finished := false |},
         {| rg_yielded := None; rg_rest := [];
            rg_data := map (job_meta sha1_tail account d) ids; rg_finished := true |}.
  split; [|split; [reflexivity|split; [|split; [reflexivity|reflexivity]]]].
  - rewrite register_take_run. by destruct ids.
  - unfold register_next. cbn [rg_finished rg_rest rg_yielded rg_data].
    assert ((match (if ids is [] then None else last ids) with
             | Some id_ =>
                 (if ids is [] then []
                  else map (job_meta sha1_tail account d) (removelast ids))
                 ++ [job_meta sha1_tail account d id_]
             | None =>
                 if ids is [] then []
                 else map (job_meta sha1_tail account d) (removelast ids)
             end) = map (job_meta sha1_tail account d) ids) as ->; [|done].
    destruct ids as [|i ids]; [done|].
    induction ids as [|j ids _] using rev_ind; [done|].
    rewrite app_comm_cons, last_snoc, removelast_last, map_app. done.
Qed.


End Facts.

(** X1, witness: task 3 on the example dashboard. *)
Lemma generate_ids_inj_witness :
  ((generate_ids (fun s => s) example.the_dashboard (IntId 3)).1
   = (generate_ids (fun s => s) example.the_dashboard (IntId 3)).1
   ∨ (generate_ids (fun s => s) example.the_dashboard (IntId 3)).2
     = (generate_ids (fun s => s) example.the_dashboard (IntId 3)).2)
  ∧ 3 = 3.
Proof.
  assert ((generate_ids (fun s => s) example.the_dashboard (IntId 3)).1
          = (generate_ids (fun s => s) example.the_dashboard (IntId 3)).1
          ∨ (generate_ids (fun s => s) example.the_dashboard (IntId 3)).2
            = (generate_ids (fun s => s) example.the_dashboard (IntId 3)).2) as H
    by (left; reflexivity).
  split; [exact H|].
  exact (generate_ids_inj (fun s => s) example.the_dashboard 3 3 H).
Defined.

(** X5, witness: a report at 301 s stored as 302 s, on a dashboard with an
    interval of 300 s; the call at 400 s is silent. *)
Lemma update_tasks_then_quiet_witness :
  (previous example.the_dashboard + interval example.the_dashboard < Q2Qc 301)%Qc
  ∧ (Q2Qc 400 - Q2Qc 302 < interval example.the_dashboard)%Qc
  ∧ update_tasks (fun s => s) (fun _ => "now") (Q2Qc 400) (Q2Qc 401) example.broken_queue []
      (update_tasks (fun s => s) (fun _ => "now") (Q2Qc 301) (Q2Qc 302) example.a_queue
         [DONE] example.the_dashboard).1
    = ((update_tasks (fun s => s) (fun _ => "now") (Q2Qc 301) (Q2Qc 302) example.a_queue
          [DONE] example.the_dashboard).1, Ok tt).
Proof.
  assert (previous example.the_dashboard + interval example.the_dashboard < Q2Qc 301)%Qc
    as H1 by (vm_compute; reflexivity).
  assert (Q2Qc 400 - Q2Qc 302 < interval example.the_dashboard)%Qc
    as H2 by (vm_compute; reflexivity).
  split; [exact H1|]. split; [exact H2|].
  exact (update_tasks_then_quiet (fun s => s) (fun _ => "now") (Q2Qc 301) (Q2Qc 302)
           example.a_queue [DONE] (Q2Qc 400) (Q2Qc 401) example.broken_queue []
           example.the_dashboard H1 H2).
Defined.

End dash_more.

(** ** More about the task provider's helpers *)

Module helper_facts.
Import source more.

(** *** The executable name *)

Lemma exename_cons p0 c0 wfs :
  any_pset ((p0, c0) :: wfs) = false →
  exename ((p0, c0) :: wfs)
  = if forallb (fun x : option string =>
                  bool_decide (x = c0) && negb (bool_decide (x = None)))
               (c0 :: map snd wfs)
    then Ok c0 else Ok (Some "noncmsRun").
Proof. unfold exename. intros ->. reflexivity. Qed.

(** X8. The executable name.  It is [cmsRun] as soon as one workflow has a
    parameter set; without workflows the choice fails with [IndexError];
    otherwise it is the command that all workflows share, if they share one
    and it is not [None], and [noncmsRun] if not.  It is never [None]. *)
Theorem exename_cases wfs :
  (any_pset wfs = true → exename wfs = Ok (Some "cmsRun"))
  ∧ (exename wfs = Raise IndexError ↔ wfs = [])
  ∧ exename wfs ≠ Ok None
  ∧ (∀ c, exename wfs = Ok (Some c) →
          c = "cmsRun" ∨ c = "noncmsRun" ∨ Forall (fun w => w.2 = Some c) wfs)
  ∧ (∀ c, any_pset wfs = false → wfs ≠ [] → Forall (fun w => w.2 = Some c) wfs →
          exename wfs = Ok (Some c))
  ∧ (any_pset wfs = false → wfs ≠ [] →
     (¬ ∃ c, Forall (fun w => w.2 = Some c) wfs) → exename wfs = Ok (Some "noncmsRun")).
Proof.
  assert (∀ c0 cmds,
            forallb (fun x : option string =>
                       bool_decide (x = c0) && negb (bool_decide (x = None))) cmds = true
            ↔ Forall (fun x => x = c0 ∧ x ≠ None) cmds) as Hall.
  { intros c0 cmds. rewrite forallb_forall, Forall_forall.
    split; intros H x Hx.
    - apply list_elem_of_In, H in Hx.
      apply andb_true_iff in Hx as [H1%bool_decide_eq_true H2%negb_true_iff].
      by apply bool_decide_eq_false in H2.
    - apply list_elem_of_In, H in Hx as [H1 H2].
      apply andb_true_iff. split; [by apply bool_decide_eq_true|].
      by apply negb_true_iff, bool_decide_eq_false. }
  destruct (any_pset wfs) eqn:Hany.
  { unfold exename. rewrite Hany. repeat split; try done.
    - intros ->. done.
    - intros c [= <-]. by left. }
  destruct wfs as [|[p0 c0] wfs].
  { repeat split; try done. }
  rewrite (exename_cons _ _ _ Hany).
  destruct (forallb (fun x : option string =>
                       bool_decide (x = c0) && negb (bool_decide (x = None)))
                    (c0 :: map snd wfs)) eqn:Hf.
  - apply Hall in Hf. pose proof Hf as Hf'. apply Forall_cons in Hf' as [[_ Hc0] Hrest].
    repeat split; try done.
    + intros [= ->]. done.
    + intros c [= ->]. right. right. constructor; [done|].
      apply Forall_forall. intros [p x] Hx. simpl.
      assert (x ∈ map snd wfs) as Hx' by (apply list_elem_of_fmap; by exists (p, x)).
      by apply (proj1 (Forall_forall _ _) Hrest) in Hx' as [-> _].
    + intros c _ _ Hc. apply Forall_cons in Hc as [Hc _]. simpl in Hc. by rewrite Hc.
    + intros _ _ Hno. destruct Hno. destruct c0 as [c|]; [|done]. exists c.
      constructor; [done|]. apply Forall_forall. intros [p x] Hx. simpl.
      assert (x ∈ map snd wfs) as Hx' by (apply list_elem_of_fmap; by exists (p, x)).
      by apply (proj1 (Forall_forall _ _) Hrest) in Hx' as [-> _].
  - repeat split; try done.
    + intros c [= <-]. right. by left.
    + intros c _ _ Hc.
      assert (forallb (fun x : option string =>
                         bool_decide (x = c0) && negb (bool_decide (x = None)))
                      (c0 :: map snd wfs) = true) as Hyes; [|congruence].
      apply Hall. apply Forall_cons in Hc as [Hc0 Hc]. simpl in Hc0. subst c0.
      constructor; [done|]. apply Forall_forall. intros x Hx.
      apply list_elem_of_fmap in Hx as ([p y] & -> & Hy).
      pose proof (proj1 (Forall_forall _ _) Hc _ Hy) as Hy'. simpl in Hy'.
      simpl. by rewrite Hy'.
Qed.

(** *** ReleaseSummary.wq *)

Lemma summary_wq_loop_absent keys status taskid s :
  status ∉ keys → summary_wq_loop keys status taskid s = s.
Proof.
  unfold summary_wq_loop. revert s. induction keys as [|k keys IH]; intros s Hn; [done|].
  apply not_elem_of_cons in Hn as [Hne Hn]. simpl.
  rewrite bool_decide_eq_false_2 by done. by apply IH.
Qed.

Lemma summary_wq_loop_cons k keys status taskid s :
  summary_wq_loop (k :: keys) status taskid s
  = summary_wq_loop keys status taskid
      (if bool_decide (status = k)
       then {| rs_exe := rs_exe s;
               rs_wq := <[k := default [] (rs_wq s !! k) ++ [taskid]]> (rs_wq s);
               rs_taskdirs := rs_taskdirs s; rs_monitors := rs_monitors s |}
       else s).
Proof. reflexivity. Qed.

(** X9. [ReleaseSummary.wq] does not depend on the order in which the
    dictionary [flags] yields its keys: the task is filed under [status]
    when [status] is one of the ten result codes, and nowhere otherwise. *)
Theorem summary_wq_any_order keys status taskid s :
  keys ≡ₚ map fst flags →
  summary_wq_loop keys status taskid s = summary_wq status taskid s.
Proof.
  intros Hperm.
  assert (NoDup keys) as Hnd.
  { rewrite Hperm. apply NoDup_ListNoDup. vm_compute.
    repeat (constructor; [intros Hin; simpl in Hin; intuition discriminate|]). constructor. }
  unfold summary_wq.
  assert (bool_decide (status ∈ map fst flags) = bool_decide (status ∈ keys)) as ->
    by (apply bool_decide_ext; by rewrite Hperm).
  clear Hperm. revert s. induction keys as [|k keys IH]; intros s.
  - simpl. by destruct s.
  - apply NoDup_cons in Hnd as [Hk Hnd]. rewrite summary_wq_loop_cons.
    destruct (decide (status = k)) as [->|Hne].
    + rewrite (bool_decide_eq_true_2 (k = k)) by done.
      rewrite summary_wq_loop_absent by done.
      rewrite bool_decide_eq_true_2 by (by left). done.
    + rewrite (bool_decide_eq_false_2 (status = k)) by done. rewrite IH by done.
      assert (bool_decide (status ∈ k :: keys) = bool_decide (status ∈ keys)) as ->; [|done].
      apply bool_decide_ext. rewrite elem_of_cons. split; [|by right].
      by intros [?|?].
Qed.

(** X9, witness: the keys in the opposite order. *)
Lemma summary_wq_any_order_witness :
  reverse (map fst flags) ≡ₚ map fst flags
  ∧ summary_wq_loop (reverse (map fst flags)) 32 "7" summary_init
    = summary_wq 32 "7" summary_init.
Proof.
  assert (reverse (map fst flags) ≡ₚ map fst flags) as H by apply reverse_Permutation.
  split; [exact H|].
  exact (summary_wq_any_order (reverse (map fst flags)) 32 "7" summary_init H).
Defined.

(** *** Paths *)

(** A last component that starts with the separator is the whole path. *)
Lemma path_join_absolute a parts b :
  starts_with_sep b = true → path_join (a :: parts ++ [b]) = b.
Proof. intros H. unfold path_join. rewrite foldl_app. simpl. unfold join2. by rewrite H. Qed.

Example path_join_examples :
  path_join ["work"; "ntuple"; "running"; "7"] = "work/ntuple/running/7"
  ∧ path_join ["work/"; "report.json"] = "work/report.json"
  ∧ path_join ["work"; "/store"; "out.root"] = "/store/out.root"
  ∧ path_join [EmptyString; "out.root"] = "out.root".
Proof. repeat split. Qed.

End helper_facts.
